(** * img-plugin-obsidian: a model of [main.ts] and of its upload pipeline

    The plugin intercepts paste and drop events of the editor, uploads the
    attached files to a Gitee repository and replaces the selection by links
    to the uploaded files.  This file embeds [main.ts] function by function:

    - [Js]       the few JavaScript primitives the source relies on
                 (string search and replacement, [join], truthiness,
                 template-literal conversion, [Promise.all]);
    - [Settings] [MyPluginSettings], [DEFAULT_SETTINGS], [loadSettings],
                 [saveSettings] and the setting tab's [onChange] handlers;
    - [Gitee]    [uploadToGitee];
    - [Plugin]   [uploadFiles] and [SampleModal].

    Strings are sequences of UTF-8 bytes.  The source only concatenates
    strings and searches ASCII patterns in them, which behaves the same on
    bytes as on UTF-16 code units. *)

From Stdlib Require Import ZArith Lia.
From stdpp Require Import gmap strings list fin_maps.

Open Scope string_scope.

(* ===================================================================== *)
(** * JavaScript primitives *)
(* ===================================================================== *)

Module Js.

(** [s.includes(pat)]: [pat] occurs somewhere in [s]. *)
Fixpoint includes (s pat : string) : bool :=
  if String.prefix pat s then true
  else match s with
       | EmptyString => false
       | String _ s' => includes s' pat
       end.

(** [s.startsWith(pat)]. *)
Definition startsWith (s pat : string) : bool := String.prefix pat s.

(** [s.slice(n)]. *)
Fixpoint slice (n : nat) (s : string) : string :=
  match n, s with
  | O, _ => s
  | S _, EmptyString => EmptyString
  | S n', String _ s' => slice n' s'
  end.

(** [s.replace(pat, rep)] with a string pattern: the first occurrence only.
    ([rep] is the empty string at the only call site, so the [$]-patterns of
    the replacement play no role.) *)
Fixpoint replace (s pat rep : string) : string :=
  if String.prefix pat s then rep +:+ slice (String.length pat) s
  else match s with
       | EmptyString => EmptyString
       | String c s' => String c (replace s' pat rep)
       end.

(** [l.join(sep)] on an array of strings. *)
Fixpoint join (sep : string) (l : list string) : string :=
  match l with
  | [] => ""
  | x :: l' =>
      match l' with
      | [] => x
      | _ :: _ => x +:+ sep +:+ join sep l'
      end
  end.

(** The values a configuration object holds: the two primitive types of the
    interface [MyPluginSettings].  A missing property reads as [undefined],
    which is [None] below. *)
Inductive value : Type :=
  | VStr (s : string)
  | VBool (b : bool).

(** Conversion inside a template literal, [`${v}`]. *)
Definition template (v : option value) : string :=
  match v with
  | None => "undefined"
  | Some (VStr s) => s
  | Some (VBool true) => "true"
  | Some (VBool false) => "false"
  end.

(** Truthiness, as tested by [if (v)]. *)
Definition truthy (v : option value) : bool :=
  match v with
  | None => false
  | Some (VStr s) => negb (String.eqb s "")
  | Some (VBool b) => b
  end.

(** Truthiness of an array element that is a string or a hole, as tested by
    [res.filter(x => x)]. *)
Definition truthy_string (x : option string) : bool :=
  match x with
  | None => false
  | Some s => negb (String.eqb s "")
  end.

(** The string ['\n']. *)
Definition newline : string := String (Ascii.ascii_of_nat 10) EmptyString.

(** [a || b] on a string-or-null [a]. *)
Definition or_string (a : option string) (b : string) : string :=
  match a with
  | Some s => if String.eqb s "" then b else s
  | None => b
  end.

(** ** Promises and [Promise.all] *)

Inductive promise (A : Type) : Type :=
  | Resolved (v : A)
  | Rejected
  | Pending.
Arguments Resolved {A} v.
Arguments Rejected {A}.
Arguments Pending {A}.

(** [Promise.all] keeps an array of values, one slot per input promise, and a
    count of the promises that are still to be fulfilled.  When the promise at
    position [i] is fulfilled its value is stored at index [i]; when the count
    reaches zero the array is the result.  The first rejection rejects the
    whole. *)
Record all_state : Type := AllState {
  values : list (option string);
  remaining : nat;
  outcome : promise (list (option string));
}.

Definition all_init (n : nat) : all_state :=
  {| values := replicate n None;
     remaining := n;
     outcome := if Nat.eqb n 0 then Resolved [] else Pending |}.

Definition settle (o : promise (list (option string)))
    (st : promise (list (option string))) : promise (list (option string)) :=
  match st with
  | Pending => o
  | _ => st
  end.

(** The reaction of [Promise.all] when the input promise at position [i]
    settles.  A promise that stays pending never reacts. *)
Definition all_step (slots : list (promise string)) (st : all_state) (i : nat)
    : all_state :=
  match slots !! i with
  | Some (Resolved v) =>
      let values' := <[i := Some v]> (values st) in
      let remaining' := Nat.pred (remaining st) in
      {| values := values';
         remaining := remaining';
         outcome := if Nat.eqb remaining' 0
                    then settle (Resolved values') (outcome st)
                    else outcome st |}
  | Some Rejected =>
      {| values := values st;
         remaining := remaining st;
         outcome := settle Rejected (outcome st) |}
  | Some Pending | None => st
  end.

(** [Promise.all(slots)] when the input promises settle in the order
    [order] (a list of positions). *)
Definition all (slots : list (promise string)) (order : list nat)
    : promise (list (option string)) :=
  outcome (fold_left (all_step slots) order (all_init (length slots))).

(** The state of [Promise.all] when the promises at the positions [todo] are
    still to be fulfilled, the values being [vs]. *)
Record all_inv (vs : list string) (todo : list nat) (st : all_state) : Prop := {
  inv_length : length (values st) = length vs;
  inv_todo : ∀ i, i ∈ todo → i < length vs → values st !! i = Some None;
  inv_done : ∀ i v, vs !! i = Some v → i ∉ todo → values st !! i = Some (Some v);
  inv_remaining : remaining st = length todo;
  inv_outcome :
    outcome st = match todo with
                 | [] => Resolved (values st)
                 | _ :: _ => Pending
                 end;
}.



(** [p.then(f)], for a callback that only performs effects: the effects of
    the callback when [p] is fulfilled, none otherwise. *)
Definition then_ {A E : Type} (p : promise A) (f : A -> list E) : list E :=
  match p with
  | Resolved v => f v
  | Rejected | Pending => []
  end.

End Js.

(* ===================================================================== *)
(** * Settings *)
(* ===================================================================== *)

Module Settings.
Import Js.

(** [interface MyPluginSettings]: the five property names. *)
Definition fields : list string :=
  ["repo"; "branch"; "path"; "token"; "subPathable"].

(** [const DEFAULT_SETTINGS]. *)
Definition DEFAULT_SETTINGS : gmap string value :=
  <["repo" := VStr ""]>
  (<["branch" := VStr "master"]>
  (<["path" := VStr "/"]>
  (<["token" := VStr ""]>
  (<["subPathable" := VBool true]> ∅)))).

(** An object that has the five properties of the interface. *)
Definition complete (s : gmap string value) : Prop :=
  ∀ k, k ∈ fields → is_Some (s !! k).

(** [Object.assign({}, a, b)]: the properties of [b] win; [b] may be
    [undefined] or [null], which contributes nothing. *)
Definition assign (a : gmap string value) (b : option (gmap string value))
    : gmap string value :=
  match b with
  | Some o => o ∪ a
  | None => a
  end.

(** The plugin's data store: [loadData] returns what [saveData] stored last,
    or nothing on the first run. *)
Definition store : Type := option (gmap string value).

Definition loadData (st : store) : option (gmap string value) := st.
Definition saveData (data : gmap string value) (st : store) : store := Some data.

(** [loadSettings]: the new value of [this.settings]. *)
Definition loadSettings (st : store) : gmap string value :=
  assign DEFAULT_SETTINGS (loadData st).

(** [saveSettings]: the new content of the data store. *)
Definition saveSettings (settings : gmap string value) (st : store) : store :=
  saveData settings st.

(** An [onChange] handler of the setting tab:
    [this.plugin.settings.k = v; await this.plugin.saveSettings()]. *)
Definition onChange (k : string) (v : value)
    (settings : gmap string value) (st : store) : gmap string value * store :=
  let settings' := <[k := v]> settings in
  (settings', saveSettings settings' st).

End Settings.

(* ===================================================================== *)
(** * The upload pipeline *)
(* ===================================================================== *)

Module Gitee.
Import Js.

(** A [File] of the DOM, as far as the source reads it. *)
Record File : Type := mkFile {
  name : string;
  size : Z;
  type : string;
}.

(** The body of the create-file request. *)
Record PostData : Type := mkPostData {
  access_token : option value;
  content : string;
  message : string;
}.

(** What the pipeline does to the outside world. *)
Inductive effect : Type :=
  | NewNotice (text : string) (duration : Z)
  | AxiosPost (url : string) (data : PostData).

(** How a [FileReader] finishes [readAsDataURL]: [onload] with
    [reader.result], or [onerror]. *)
Inductive FileReaderEvent : Type :=
  | onload (result : string)
  | onerror.

(** How [axios.post] finishes.  It is fulfilled by a response of status 2xx,
    of which the source reads [res.data.content.download_url].  It is
    rejected with an error [err] otherwise: [err.response] holds the
    response of the server (of which the source reads [data.message]) when
    there is one, and is [undefined] when the request got no response. *)
Inductive AxiosResult : Type :=
  | AxiosResponse (download_url : string)
  | AxiosError (response : option string).

(** The environment of one batch: how the read of the file at position [i]
    finishes, and how the request issued for it finishes. *)
Record World : Type := mkWorld {
  readAsDataURL : nat -> File -> FileReaderEvent;
  post : nat -> string -> PostData -> AxiosResult;
}.

Definition limit : Z := 1024 * 1024 * 10.

(** [file.size > 1024 * 1024 * 10] and [file.size <= 1024 * 1024 * 10]. *)
Definition tooLarge (file : File) : bool := (limit <? size file)%Z.
Definition withinLimit (file : File) : bool := (size file <=? limit)%Z.

(** The first statement of [uploadToGitee]. *)
Definition tooLargeFiles (fileList : list File) : list File :=
  filter (fun file => Is_true (tooLarge file)) fileList.

(** The notice of lines 74 to 76. *)
Definition tooLargeNotice (fileList : list File) : list effect :=
  match tooLargeFiles fileList with
  | [] => []
  | _ :: _ =>
      [NewNotice ("文件大小不能超过10MB，"
                  +:+ join "、" (map name (tooLargeFiles fileList))
                  +:+ "将会被丢弃") 5000]
  end.

(** The files that are mapped to promises (line 77). *)
Definition acceptedFiles (fileList : list File) : list File :=
  filter (fun file => Is_true (withinLimit file)) fileList.

(** The URL of the request (line 81). *)
Definition requestUrl (settings : gmap string value) (filePath : string)
    (file : File) : string :=
  "https://gitee.com/api/v5/repos/" +:+ template (settings !! "repo")
  +:+ "/contents/" +:+ template (settings !! "path")
  +:+ "/" +:+ filePath +:+ "/" +:+ name file.

(** The body of the request (lines 82 to 84). *)
Definition requestData (settings : gmap string value) (file : File)
    (result : string) : PostData :=
  {| access_token := settings !! "token";
     content := replace result ("data:" +:+ type file +:+ ";base64,") "";
     message := "upload image" |}.

(** The callback of [.then] (line 87). *)
Definition onFulfilled (file : File) (download_url : string) : string :=
  if includes (type file) "image"
  then "![" +:+ name file +:+ "](" +:+ download_url +:+ ")"
  else download_url.

(** The callback of [.catch] (lines 90 and 91).  The text of the notice reads
    [err.response.data.message]; when [err.response] is [undefined] this
    throws a [TypeError] before the notice is built, so neither the notice nor
    [resolve('')] is reached and the promise of the file is never settled:
    [reject] is called nowhere. *)
Definition onRejected (file : File) (response : option string)
    : list effect * promise string :=
  match response with
  | Some msg =>
      ([NewNotice ("上传文件" +:+ name file +:+ "失败，失败原因：" +:+ msg) 5000],
       Resolved "")
  | None => ([], Pending)
  end.

(** The promise built for one file (lines 78 to 99), with the effects it
    performs in the order they happen. *)
Definition uploadFile (settings : gmap string value) (filePath : string)
    (w : World) (i : nat) (file : File) : list effect * promise string :=
  match readAsDataURL w i file with
  | onload result =>
      let url := requestUrl settings filePath file in
      let data := requestData settings file result in
      match post w i url data with
      | AxiosResponse download_url =>
          ([AxiosPost url data], Resolved (onFulfilled file download_url))
      | AxiosError response =>
          let '(effs, p) := onRejected file response in
          (AxiosPost url data :: effs, p)
      end
  | onerror =>
      ([NewNotice ("文件读取" +:+ name file +:+ "失败") 5000], Resolved "")
  end.

(** The result of [uploadToGitee]: the effects of its synchronous part, the
    promises of the accepted files with their own effects, and the promise
    [Promise.all] makes of them. *)
Record Batch : Type := mkBatch {
  notices : list effect;
  uploads : list (list effect * promise string);
}.

Definition uploadToGitee (fileList : list File)
    (settings : gmap string value) (filePath : string) (w : World) : Batch :=
  {| notices := tooLargeNotice fileList;
     uploads := imap (uploadFile settings filePath w) (acceptedFiles fileList) |}.

(** The promises handed to [Promise.all]. *)
Definition promises (b : Batch) : list (promise string) := map snd (uploads b).

(** The requests among some effects. *)
Definition isPost (e : effect) : bool :=
  match e with
  | AxiosPost _ _ => true
  | NewNotice _ _ => false
  end.

Definition requests (effs : list effect) : list effect :=
  filter (fun e => Is_true (isPost e)) effs.

(** All the requests of a batch, by position of the file. *)
Definition batchRequests (b : Batch) : list effect :=
  concat (map (fun u => requests (fst u)) (uploads b)).

(** Every effect of a batch: those of the synchronous part, then those of the
    files by position. *)
Definition allEffects (b : Batch) : list effect :=
  notices b ++ concat (map fst (uploads b)).

(** The notice about oversized files, recognised by the words it starts
    with. *)
Definition isSizeNotice (e : effect) : bool :=
  match e with
  | NewNotice text _ => startsWith text "文件大小不能超过10MB，"
  | AxiosPost _ _ => false
  end.

(** What the editor receives. *)
Inductive editorEffect : Type :=
  | ReplaceSelection (text : string).

(** [res.filter(x => x).join('\n')] (lines 54 and 141). *)
Definition joined (res : list (option string)) : string :=
  join newline
    (omap id (filter (fun x => Is_true (truthy_string x)) res)).

(** [uploadToGitee(...).then(res => editor.replaceSelection(...))], when the
    promises of the files settle in the order [order]. *)
Definition insertResults (b : Batch) (order : list nat) : list editorEffect :=
  then_ (all (promises b) order) (fun res => [ReplaceSelection (joined res)]).

End Gitee.

(* ===================================================================== *)
(** * The plugin: event handler and modal *)
(* ===================================================================== *)

Module Plugin.
Import Js Gitee.

(** A paste or drop event: the file list it carries ([event.clipboardData?.files]
    for a paste, [event.dataTransfer?.files] for a drop; [None] is
    [undefined]) and the two flags the handler sets. *)
Inductive eventKind : Type := EditorPaste | EditorDrop.

Record Event : Type := mkEvent {
  kind : eventKind;
  files : option (list File);
  defaultPrevented : bool;
  propagationStopped : bool;
}.

Definition preventDefault (e : Event) : Event :=
  {| kind := kind e; files := files e;
     defaultPrevented := true;
     propagationStopped := propagationStopped e |}.

Definition stopPropagation (e : Event) : Event :=
  {| kind := kind e; files := files e;
     defaultPrevented := defaultPrevented e;
     propagationStopped := true |}.

(** [class SampleModal]: the fields the source reads. *)
Record SampleModal : Type := mkSampleModal {
  filePath : string;
  fileList : list File;
  modalSettings : gmap string value;
}.

(** The constructor of [SampleModal] (lines 110 to 116). *)
Definition newSampleModal (localStorage : gmap string string)
    (fileList : list File) (settings : gmap string value) : SampleModal :=
  {| filePath := or_string (localStorage !! "filePath") "";
     fileList := fileList;
     modalSettings := settings |}.

(** The [onChange] handler of the text field (lines 131 to 134). *)
Definition modalOnChange (v : string) (m : SampleModal)
    (localStorage : gmap string string) : SampleModal * gmap string string :=
  ({| filePath := v; fileList := fileList m; modalSettings := modalSettings m |},
   <["filePath" := v]> localStorage).

(** The [onClick] handler of the button (line 140). *)
Definition modalOnClick (m : SampleModal) (w : World) : Batch :=
  uploadToGitee (fileList m) (modalSettings m) (filePath m) w.

(** The plugin object. *)
Record MyPlugin : Type := mkMyPlugin {
  settings : gmap string value;
}.

(** What [uploadFiles] goes on to do: nothing, open a modal, or call
    [uploadToGitee] with the given arguments and insert its results. *)
Inductive dispatch : Type :=
  | Return
  | OpenModal (m : SampleModal)
  | Upload (fileList : list File) (settings : gmap string value)
           (filePath : string).

(** [uploadFiles] (lines 43 to 57): the event after the call and what the
    handler goes on to do.  In the call [uploadToGitee(files, this.settings)]
    of line 53 the parameter [filePath] takes its default value, the empty
    string. *)
Definition uploadFiles (this : MyPlugin) (localStorage : gmap string string)
    (files : option (list File)) (event : Event) : Event * dispatch :=
  match files with
  | None | Some [] => (event, Return)
  | Some ((_ :: _) as fileList) =>
      let event' := stopPropagation (preventDefault event) in
      if truthy (settings this !! "subPathable")
      then (event', OpenModal (newSampleModal localStorage fileList (settings this)))
      else (event', Upload fileList (settings this) "")
  end.

(** The two handlers registered by [onload] (lines 28 to 37). *)
Definition onEditorEvent (this : MyPlugin) (localStorage : gmap string string)
    (event : Event) : Event * dispatch :=
  uploadFiles this localStorage (files event) event.

(** The toggle of the setting tab (lines 220 to 223). *)
Definition toggleSubPathable (v : bool) (this : MyPlugin)
    (st : Settings.store) : MyPlugin * Settings.store :=
  let '(s, st') := Settings.onChange "subPathable" (VBool v) (settings this) st in
  ({| settings := s |}, st').

End Plugin.

(* ===================================================================== *)
(** * The specification's wording, where it is compared with the code *)
(* ===================================================================== *)

Module Spec.
Import Js Gitee.

(** The request path as the specification words it:
    [{basePath}/{subPath}/{fileName}], the sub-path segment being left out
    when no sub-path was collected ([None]). *)
Definition requestPath (basePath : string) (subPath : option string)
    (fileName : string) : string :=
  match subPath with
  | Some sub => basePath +:+ "/" +:+ sub +:+ "/" +:+ fileName
  | None => basePath +:+ "/" +:+ fileName
  end.

Definition requestUrl (settings : gmap string value) (subPath : option string)
    (file : File) : string :=
  "https://gitee.com/api/v5/repos/" +:+ template (settings !! "repo")
  +:+ "/contents/"
  +:+ requestPath (template (settings !! "path")) subPath (name file).

(** The display text as the specification words it: Markdown image syntax
    when the MIME type starts with [image/], the bare URL otherwise. *)
Definition displayText (file : File) (download_url : string) : string :=
  if startsWith (type file) "image/"
  then "![" +:+ name file +:+ "](" +:+ download_url +:+ ")"
  else download_url.

End Spec.

(* ===================================================================== *)
(** * Sample configurations, files and environments *)
(* ===================================================================== *)

Module Samples.
Import Js Gitee Plugin.

Definition direct_settings : gmap string value :=
  <["subPathable" := VBool false]>
  (<["token" := VStr "t0k"]>
  (<["path" := VStr "img"]>
  (<["repo" := VStr "o/r"]> Settings.DEFAULT_SETTINGS))).

Definition a_png : File := mkFile "a.png" 5242880 "image/png".
Definition b_pdf : File := mkFile "b.pdf" 15728640 "application/pdf".
Definition c_txt : File := mkFile "c.txt" 12 "text/plain".
Definition d_odi : File :=
  mkFile "d.odi" 2048 "application/vnd.oasis.opendocument.image".

Definition paste (fl : option (list File)) : Event :=
  mkEvent EditorPaste fl false false.

Definition reads_ok (i : nat) (file : File) : FileReaderEvent :=
  onload ("data:" +:+ type file +:+ ";base64,QUJD").

Definition url_of (i : nat) : string :=
  match i with
  | 0 => "https://x/0"
  | _ => "https://x/n"
  end.

(** Every read and every request succeeds. *)
Definition online : World :=
  mkWorld reads_ok (fun i _ _ => AxiosResponse (url_of i)).

(** The read of the first file fails. *)
Definition unreadable : World :=
  mkWorld (fun i file => match i with 0 => onerror | _ => reads_ok i file end)
          (fun i _ _ => AxiosResponse (url_of i)).

(** The server refuses the first request. *)
Definition quota : World :=
  mkWorld reads_ok
          (fun i _ _ => match i with
                        | 0 => AxiosError (Some "quota exceeded")
                        | _ => AxiosResponse (url_of i)
                        end).

(** The first request gets no response; the others succeed. *)
Definition offline : World :=
  mkWorld reads_ok
          (fun i _ _ => match i with
                        | 0 => AxiosError None
                        | _ => AxiosResponse (url_of i)
                        end).

End Samples.

(* ===================================================================== *)
(** * The rest of the plugin: start-up, modal session, setting tab *)
(* ===================================================================== *)

Module Lifecycle.
Import Js Gitee Plugin.

(** [onload] (lines 25 to 41): the plugin after [await this.loadSettings()];
    the two handlers it registers are [Plugin.onEditorEvent]. *)
Definition onload (st : Settings.store) : MyPlugin :=
  {| settings := Settings.loadSettings st |}.

(** The user types in the text field of the modal: every keystroke calls the
    [onChange] handler with the whole content of the field. *)
Definition typing (vs : list string) (m : SampleModal)
    (localStorage : gmap string string) : SampleModal * gmap string string :=
  fold_left (fun p v => modalOnChange v (fst p) (snd p)) vs (m, localStorage).



End Lifecycle.

Module SettingTab.
Import Js.

(** The five controls built by [SampleSettingTab.display] (lines 167 to
    224), each with the value its [onChange] handler receives. *)
Inductive control : Type :=
  | RepoText (v : string)
  | BranchText (v : string)
  | PathText (v : string)
  | TokenText (v : string)
  | SubPathToggle (v : bool).

(** The [onChange] handler of a control. *)
Definition handle (c : control) (settings : gmap string value)
    (st : Settings.store) : gmap string value * Settings.store :=
  match c with
  | RepoText v => Settings.onChange "repo" (VStr v) settings st
  | BranchText v => Settings.onChange "branch" (VStr v) settings st
  | PathText v => Settings.onChange "path" (VStr v) settings st
  | TokenText v => Settings.onChange "token" (VStr v) settings st
  | SubPathToggle v => Settings.onChange "subPathable" (VBool v) settings st
  end.

(** A series of changes made in the setting tab. *)
Definition session (cs : list control) (settings : gmap string value)
    (st : Settings.store) : gmap string value * Settings.store :=
  fold_left (fun p c => handle c (fst p) (snd p)) cs (settings, st).

(** A configuration whose five properties have the types that
    [MyPluginSettings] declares. *)
Definition typed (s : gmap string value) : Prop :=
  (∃ v, s !! "repo" = Some (VStr v))
  ∧ (∃ v, s !! "branch" = Some (VStr v))
  ∧ (∃ v, s !! "path" = Some (VStr v))
  ∧ (∃ v, s !! "token" = Some (VStr v))
  ∧ (∃ b, s !! "subPathable" = Some (VBool b)).

End SettingTab.

(** More sample environments. *)
Module Cases.
Import Js Gitee.

(** A file without MIME type, and the data URL a reader makes of it. *)
Definition e_bin : File := mkFile "e.bin" 3 "".

Definition octet_reader : World :=
  mkWorld (fun _ _ => onload "data:application/octet-stream;base64,QUJD")
          (fun i _ _ => AxiosResponse (Samples.url_of i)).


Definition prompting_settings : gmap string value :=
  <["path" := VStr "img"]>
  (<["repo" := VStr "o/r"]> Settings.DEFAULT_SETTINGS).

End Cases.

(* ===================================================================== *)
(** * Facts about the JavaScript primitives *)
(* ===================================================================== *)

Section JsFacts.
Import Js.

Lemma append_cons (x : Ascii.ascii) (a b : string) :
  String x a +:+ b = String x (a +:+ b).
Proof. reflexivity. Qed.

Lemma append_nil_l (b : string) : "" +:+ b = b.
Proof. reflexivity. Qed.

Lemma append_nil_r (a : string) : a +:+ "" = a.
Proof.
  induction a as [|x a IH]; [reflexivity|].
  now rewrite append_cons, IH.
Qed.

Lemma append_assoc (a b c : string) : (a +:+ b) +:+ c = a +:+ b +:+ c.
Proof.
  induction a as [|x a IH]; [reflexivity|].
  now rewrite !append_cons, IH.
Qed.

Lemma prefix_append (p s : string) : String.prefix p (p +:+ s) = true.
Proof.
  induction p as [|x p IH].
  - now destruct s.
  - rewrite append_cons. simpl.
    destruct (Ascii.ascii_dec x x); [exact IH | congruence].
Qed.

Lemma includes_unfold (s pat : string) :
  includes s pat =
  if String.prefix pat s then true
  else match s with
       | EmptyString => false
       | String _ s' => includes s' pat
       end.
Proof. destruct s; reflexivity. Qed.

Lemma includes_here (pat b : string) : includes (pat +:+ b) pat = true.
Proof. rewrite includes_unfold, prefix_append. reflexivity. Qed.

Lemma includes_append (a pat b : string) :
  includes (a +:+ pat +:+ b) pat = true.
Proof.
  induction a as [|x a IH].
  - rewrite append_nil_l. apply includes_here.
  - change (String x a +:+ pat +:+ b) with (String x (a +:+ pat +:+ b)).
    rewrite includes_unfold, IH.
    now destruct (String.prefix _ _).
Qed.

Lemma includes_self (pat : string) : includes pat pat = true.
Proof.
  rewrite <- (append_nil_r pat) at 1. apply includes_here.
Qed.

(** An element of a joined array occurs in the result. *)
Lemma join_split (sep x : string) (l : list string) :
  x ∈ l → ∃ a b, join sep l = a +:+ x +:+ b.
Proof.
  induction l as [|y l IH]; intros Hin.
  - inversion Hin.
  - destruct l as [|z l].
    + apply list_elem_of_singleton in Hin as ->.
      exists "", "". simpl. now rewrite append_nil_l, append_nil_r.
    + change (join sep (y :: z :: l)) with (y +:+ sep +:+ join sep (z :: l)).
      apply elem_of_cons in Hin as [-> | Hin].
      * exists "", (sep +:+ join sep (z :: l)). reflexivity.
      * destruct (IH Hin) as (a & b & ->).
        exists (y +:+ sep +:+ a), b. now rewrite !append_assoc.
Qed.

Lemma includes_join (sep x : string) (l : list string) :
  x ∈ l → includes (join sep l) x = true.
Proof.
  intros Hin. destruct (join_split sep x l Hin) as (a & b & ->).
  apply includes_append.
Qed.

End JsFacts.

(* ===================================================================== *)
(** * Facts about [Promise.all] *)
(* ===================================================================== *)

Section AllFacts.
Import Js.

Lemma all_inv_init (vs : list string) (order : list nat) :
  order ≡ₚ seq 0 (length vs) → all_inv vs order (all_init (length vs)).
Proof.
  intros Hperm. split; simpl.
  - apply length_replicate.
  - intros i _ Hi. now apply lookup_replicate_2.
  - intros i v Hv Hnot. exfalso. apply Hnot. rewrite Hperm.
    apply elem_of_seq. apply lookup_lt_Some in Hv. lia.
  - apply Permutation_length in Hperm. now rewrite length_seq in Hperm.
  - apply Permutation_length in Hperm. rewrite length_seq in Hperm.
    destruct order as [|i order]; simpl in Hperm; rewrite <- Hperm; reflexivity.
Qed.

Lemma all_inv_step (vs : list string) (i : nat) (todo : list nat)
    (st : all_state) :
  NoDup (i :: todo) → i < length vs →
  all_inv vs (i :: todo) st →
  all_inv vs todo (all_step (Resolved <$> vs) st i).
Proof.
  intros Hnd Hi [Hlen Htodo Hdone Hrem Hout].
  apply NoDup_cons in Hnd as [Hfresh Hnd].
  destruct (lookup_lt_is_Some_2 vs i Hi) as [v Hv].
  unfold all_step. rewrite list_lookup_fmap, Hv. simpl.
  split; simpl.
  - now rewrite length_insert.
  - intros j Hj Hlt. rewrite list_lookup_insert_ne by (intros ->; contradiction).
    apply Htodo; [now right | exact Hlt].
  - intros j u Hu Hj. destruct (decide (i = j)) as [<- | Hne].
    + rewrite list_lookup_insert_eq by lia. congruence.
    + rewrite list_lookup_insert_ne by exact Hne.
      apply (Hdone j u Hu). intros Hin.
      apply elem_of_cons in Hin as [-> | Hin]; [now apply Hne | now apply Hj].
  - rewrite Hrem. reflexivity.
  - rewrite Hrem, Hout. simpl. now destruct todo.
Qed.

Lemma all_inv_run (vs : list string) (todo : list nat) (st : all_state) :
  NoDup todo → (∀ i, i ∈ todo → i < length vs) →
  all_inv vs todo st →
  outcome (fold_left (all_step (Resolved <$> vs)) todo st)
  = Resolved (Some <$> vs).
Proof.
  revert st. induction todo as [|i todo IH]; intros st Hnd Hlt Hinv.
  - destruct Hinv as [Hlen _ Hdone _ Hout]. simpl in *. rewrite Hout. f_equal.
    apply list_eq. intros i. rewrite list_lookup_fmap.
    destruct (vs !! i) as [v|] eqn:Hv; simpl.
    + apply (Hdone i v Hv). apply not_elem_of_nil.
    + apply lookup_ge_None. apply lookup_ge_None in Hv. lia.
  - simpl. apply IH.
    + now apply NoDup_cons in Hnd as [_ Hnd].
    + intros j Hj. apply Hlt. now right.
    + apply all_inv_step; [exact Hnd | apply Hlt; now left | exact Hinv].
Qed.

(** When every input promise is fulfilled, [Promise.all] is fulfilled with
    the values in the order of the input promises, whatever the order in
    which they were fulfilled. *)
Lemma all_resolved (vs : list string) (order : list nat) :
  order ≡ₚ seq 0 (length vs) →
  all (Resolved <$> vs) order = Resolved (Some <$> vs).
Proof.
  intros Hperm. unfold all. rewrite length_fmap.
  apply all_inv_run.
  - rewrite Hperm. apply NoDup_seq.
  - intros i Hi. rewrite Hperm in Hi. apply elem_of_seq in Hi. lia.
  - now apply all_inv_init.
Qed.

(** [Promise.all] is rejected only when an input promise is. *)
Lemma all_step_not_rejected (slots : list (promise string)) (st : all_state)
    (i : nat) :
  (∀ j, slots !! j ≠ Some Rejected) →
  outcome st ≠ Rejected → outcome (all_step slots st i) ≠ Rejected.
Proof.
  intros Hslots Hst. unfold all_step.
  destruct (slots !! i) as [[v| |]|] eqn:Hi; simpl; try exact Hst.
  - destruct (Nat.eqb _ _); [|exact Hst].
    destruct (outcome st); simpl; congruence.
  - now apply Hslots in Hi.
Qed.

Lemma all_not_rejected (slots : list (promise string)) (order : list nat) :
  (∀ j, slots !! j ≠ Some Rejected) → all slots order ≠ Rejected.
Proof.
  intros Hslots. unfold all.
  assert (Hinit : outcome (all_init (length slots)) ≠ Rejected).
  { simpl. now destruct (Nat.eqb _ _). }
  revert Hinit. generalize (all_init (length slots)).
  induction order as [|i order IH]; intros st Hst; simpl; [exact Hst|].
  apply IH. now apply all_step_not_rejected.
Qed.





End AllFacts.

(* ===================================================================== *)
(** * Facts about the upload pipeline *)
(* ===================================================================== *)

Section GiteeFacts.
Import Js Gitee.

Variables (settings : gmap string value) (filePath : string) (w : World).

Lemma uploads_lookup (fileList : list File) (i : nat) :
  uploads (uploadToGitee fileList settings filePath w) !! i
  = uploadFile settings filePath w i <$> acceptedFiles fileList !! i.
Proof. apply list_lookup_imap. Qed.

Lemma promises_lookup (fileList : list File) (i : nat) :
  promises (uploadToGitee fileList settings filePath w) !! i
  = (λ file, snd (uploadFile settings filePath w i file))
      <$> acceptedFiles fileList !! i.
Proof.
  unfold promises. rewrite list_lookup_fmap, uploads_lookup.
  now destruct (acceptedFiles fileList !! i).
Qed.


(** [reject] is never called: the promise of a file is fulfilled or stays
    pending. *)
Lemma uploadFile_not_rejected (i : nat) (file : File) :
  snd (uploadFile settings filePath w i file) ≠ Rejected.
Proof.
  unfold uploadFile.
  destruct (readAsDataURL w i file) as [result|]; [|discriminate].
  destruct (post w i _ _) as [url|[msg|]]; discriminate.
Qed.

Lemma promises_not_rejected (fileList : list File) (j : nat) :
  promises (uploadToGitee fileList settings filePath w) !! j ≠ Some Rejected.
Proof.
  rewrite promises_lookup.
  destruct (acceptedFiles fileList !! j) as [file|]; [|discriminate].
  simpl. intros [= H]. now apply uploadFile_not_rejected in H.
Qed.

Lemma elem_of_acceptedFiles (fileList : list File) (file : File) :
  file ∈ acceptedFiles fileList ↔ file ∈ fileList ∧ (size file <= limit)%Z.
Proof.
  unfold acceptedFiles, withinLimit. rewrite list_elem_of_filter.
  rewrite Is_true_true, Z.leb_le. tauto.
Qed.

Lemma elem_of_tooLargeFiles (fileList : list File) (file : File) :
  file ∈ tooLargeFiles fileList ↔ file ∈ fileList ∧ (limit < size file)%Z.
Proof.
  unfold tooLargeFiles, tooLarge. rewrite list_elem_of_filter.
  rewrite Is_true_true, Z.ltb_lt. tauto.
Qed.

(** The shapes of the effects of one file. *)
Lemma uploadFile_effects (i : nat) (file : File) (e : effect) :
  e ∈ fst (uploadFile settings filePath w i file) →
  (∃ result, e = AxiosPost (requestUrl settings filePath file)
                           (requestData settings file result))
  ∨ e = NewNotice ("文件读取" +:+ name file +:+ "失败") 5000
  ∨ (∃ msg, e = NewNotice ("上传文件" +:+ name file +:+ "失败，失败原因："
                           +:+ msg) 5000).
Proof.
  unfold uploadFile.
  destruct (readAsDataURL w i file) as [result|]; simpl.
  - destruct (post w i _ _) as [url|[msg|]]; simpl; intros Hin.
    + apply list_elem_of_singleton in Hin as ->. left. now exists result.
    + apply elem_of_cons in Hin as [-> | Hin]; [left; now exists result|].
      apply list_elem_of_singleton in Hin as ->. right. right. now exists msg.
    + apply list_elem_of_singleton in Hin as ->. left. now exists result.
  - intros Hin. apply list_elem_of_singleton in Hin as ->. right. now left.
Qed.

Lemma filter_none {A : Type} (P : A → Prop) `{!∀ x, Decision (P x)}
    (l : list A) :
  (∀ x, x ∈ l → ¬ P x) → filter P l = [].
Proof.
  induction l as [|x l IH]; intros Hl; [reflexivity|].
  rewrite filter_cons. destruct (decide (P x)) as [Hx|_].
  - exfalso. apply (Hl x); [now left | exact Hx].
  - apply IH. intros y Hy. apply Hl. now right.
Qed.

(** No effect of a file passes for the notice about oversized files. *)
Lemma uploadFile_no_size_notice (i : nat) (file : File) :
  filter (λ e, Is_true (isSizeNotice e))
         (fst (uploadFile settings filePath w i file)) = [].
Proof.
  apply filter_none. intros e He.
  apply uploadFile_effects in He as [[result ->] | [-> | [msg ->]]];
    vm_compute; exact id.
Qed.

End GiteeFacts.

Section BatchFacts.
Import Js Gitee.

(** An effect of the files of a batch is an effect of one accepted file. *)
Lemma elem_of_upload_effects (fileList : list File)
    (settings : gmap string value) (filePath : string) (w : World)
    (e : effect) :
  e ∈ concat (map fst (uploads (uploadToGitee fileList settings filePath w))) →
  ∃ i file, acceptedFiles fileList !! i = Some file
            ∧ e ∈ fst (uploadFile settings filePath w i file).
Proof.
  intros He. apply list_elem_of_In, in_concat in He as (effs & Heffs & He).
  apply in_map_iff in Heffs as (u & <- & Hu).
  apply list_elem_of_In, elem_of_lookup_imap in Hu as (i & file & -> & Hfile).
  exists i, file. split; [exact Hfile | now apply list_elem_of_In].
Qed.

Lemma tooLargeNotice_is_size_notice (fileList : list File) :
  filter (λ e, Is_true (isSizeNotice e)) (tooLargeNotice fileList)
  = tooLargeNotice fileList.
Proof.
  unfold tooLargeNotice. destruct (tooLargeFiles fileList) as [|f l]; [reflexivity|].
  rewrite filter_cons, filter_nil. simpl isSizeNotice. unfold startsWith.
  rewrite prefix_append. reflexivity.
Qed.

(** The promises of a batch that are all fulfilled, as a list of values. *)
Lemma all_fulfilled_values (slots : list (promise string)) :
  (∀ j, j < length slots → ∃ v, slots !! j = Some (Resolved v)) →
  ∃ vs, slots = Resolved <$> vs.
Proof.
  induction slots as [|p slots IH]; intros Hall.
  - now exists [].
  - destruct (Hall 0) as [v Hv]; [simpl; lia|]. simpl in Hv. injection Hv as ->.
    destruct IH as [vs ->].
    + intros j Hj. apply (Hall (S j)). simpl. lia.
    + now exists (v :: vs).
Qed.

(** Dropping the falsy entries of an array of strings drops the empty ones. *)
Lemma truthy_string_Some (v : string) :
  Is_true (truthy_string (Some v)) ↔ v ≠ "".
Proof.
  simpl. destruct (String.eqb_spec v "") as [->|Hne]; simpl; tauto.
Qed.

Lemma joined_values (vs : list string) :
  joined (Some <$> vs) = join newline (filter (λ s, s ≠ "") vs).
Proof.
  unfold joined. f_equal.
  induction vs as [|v vs IH]; [reflexivity|].
  rewrite fmap_cons, (filter_cons _ (Some v)), (filter_cons _ v).
  destruct (decide (Is_true (truthy_string (Some v)))) as [Ht|Ht];
    destruct (decide (v ≠ "")) as [Hv|Hv].
  - change (omap id (Some v :: ?l)) with (v :: omap id l). now rewrite IH.
  - now apply truthy_string_Some in Ht.
  - now apply truthy_string_Some in Hv.
  - exact IH.
Qed.

Lemma prefix_split (p s : string) :
  String.prefix p s = true → ∃ r, s = p +:+ r.
Proof.
  revert s. induction p as [|x p IH]; intros s Hp.
  - now exists s.
  - destruct s as [|y s]; simpl in Hp; [discriminate|].
    destruct (Ascii.ascii_dec x y) as [->|]; [|discriminate].
    destruct (IH s Hp) as [r ->]. now exists r.
Qed.

(** A MIME type that starts with [image/] contains [image]. *)
Lemma startsWith_image_includes (t : string) :
  startsWith t "image/" = true → includes t "image" = true.
Proof.
  intros Hp. apply prefix_split in Hp as [r ->].
  change ("image/" +:+ r) with ("" +:+ "image" +:+ ("/" +:+ r)).
  apply includes_append.
Qed.

End BatchFacts.

(* ===================================================================== *)
(** * Properties of the pipeline *)
(* ===================================================================== *)

Import Js Gitee Plugin.

(** C5 — size filter.  A file of the batch gets a promise (a read and, when
    the read succeeds, a request) if and only if its size is at most
    10 × 1024 × 1024 bytes: the promises of the batch are those of the files
    within the limit, position by position, every request of the batch is the
    request of such a file, and a file above the limit is none of them. *)
Theorem accepted_iff_within_limit (fileList : list File)
    (settings : gmap string value) (filePath : string) (w : World)
    (file : File) :
  limit = (10 * 1024 * 1024)%Z
  ∧ (file ∈ acceptedFiles fileList
     ↔ file ∈ fileList ∧ (size file <= 10 * 1024 * 1024)%Z)
  ∧ ((10 * 1024 * 1024 < size file)%Z → file ∉ acceptedFiles fileList)
  ∧ length (uploads (uploadToGitee fileList settings filePath w))
    = length (acceptedFiles fileList)
  ∧ (∀ i effs p,
       uploads (uploadToGitee fileList settings filePath w) !! i = Some (effs, p) →
       ∃ f, acceptedFiles fileList !! i = Some f
            ∧ f ∈ fileList
            ∧ (size f <= 10 * 1024 * 1024)%Z
            ∧ (effs, p) = uploadFile settings filePath w i f
            ∧ ∀ e, e ∈ requests effs →
                   ∃ result, e = AxiosPost (requestUrl settings filePath f)
                                           (requestData settings f result)).
Proof.
  split; [reflexivity|].
  split; [apply elem_of_acceptedFiles|].
  split.
  { intros Hbig Hin. apply elem_of_acceptedFiles in Hin as [_ Hle].
    unfold limit in Hle. lia. }
  split; [apply length_imap|].
  intros i effs p Hi. rewrite uploads_lookup in Hi.
  destruct (acceptedFiles fileList !! i) as [f|] eqn:Hf; [|discriminate].
  simpl in Hi. injection Hi as Hi. exists f.
  assert (Hin : f ∈ acceptedFiles fileList) by (eapply list_elem_of_lookup_2; eauto).
  apply elem_of_acceptedFiles in Hin as [Hin Hle].
  repeat split; [exact Hin | exact Hle | now rewrite Hi |].
  intros e He. apply list_elem_of_filter in He as [Hpost He].
  assert (He' : e ∈ fst (uploadFile settings filePath w i f)) by now rewrite Hi.
  apply uploadFile_effects in He' as [Hreq | [-> | [msg ->]]];
    [exact Hreq | destruct Hpost | destruct Hpost].
Qed.

Lemma accepted_iff_within_limit_witness :
  (Samples.b_pdf ∉ acceptedFiles [Samples.a_png; Samples.b_pdf])
  ∧ (Samples.a_png ∈ acceptedFiles [Samples.a_png; Samples.b_pdf]).
Proof.
  pose proof (accepted_iff_within_limit [Samples.a_png; Samples.b_pdf]
                Samples.direct_settings "" Samples.online) as H.
  split.
  - apply (H Samples.b_pdf). vm_compute. reflexivity.
  - apply (H Samples.a_png). split; [left | vm_compute; discriminate].
Defined.

(** C6 — one notice for the oversized files.  Among all the effects of a
    batch, the notices about oversized files are none when no file is above
    the limit and exactly one otherwise; that notice is shown for 5000 ms
    and its text joins the names of all the files above the limit, so the
    name of each of them occurs in it. *)
Theorem single_size_notice (fileList : list File)
    (settings : gmap string value) (filePath : string) (w : World) :
  let b := uploadToGitee fileList settings filePath w in
  let text := "文件大小不能超过10MB，"
              +:+ join "、" (map name (tooLargeFiles fileList))
              +:+ "将会被丢弃" in
  (∀ f, f ∈ tooLargeFiles fileList
        ↔ f ∈ fileList ∧ (10 * 1024 * 1024 < size f)%Z)
  ∧ (tooLargeFiles fileList = [] →
     filter (λ e, Is_true (isSizeNotice e)) (allEffects b) = [])
  ∧ (tooLargeFiles fileList ≠ [] →
     filter (λ e, Is_true (isSizeNotice e)) (allEffects b)
     = [NewNotice text 5000])
  ∧ (∀ f, f ∈ fileList → (10 * 1024 * 1024 < size f)%Z →
          includes text (name f) = true).
Proof.
  intros b text.
  assert (Hfiles : filter (λ e, Is_true (isSizeNotice e))
                          (concat (map fst (uploads b))) = []).
  { apply filter_none. intros e He Hsize.
    apply elem_of_upload_effects in He as (i & file & _ & He).
    pose proof (uploadFile_no_size_notice settings filePath w i file) as Hnone.
    exact (filter_nil_not_elem_of _ _ e Hnone Hsize He). }
  assert (Hall : filter (λ e, Is_true (isSizeNotice e)) (allEffects b)
                 = tooLargeNotice fileList).
  { unfold allEffects. rewrite filter_app, Hfiles, app_nil_r.
    apply tooLargeNotice_is_size_notice. }
  split; [apply elem_of_tooLargeFiles|].
  split; [|split].
  - intros Hnil. rewrite Hall. unfold tooLargeNotice. now rewrite Hnil.
  - intros Hne. rewrite Hall. unfold tooLargeNotice.
    destruct (tooLargeFiles fileList) as [|f l] eqn:Hl; [contradiction|].
    subst text. rewrite ?Hl. reflexivity.
  - intros f Hin Hbig.
    assert (Hf : name f ∈ map name (tooLargeFiles fileList)).
    { apply list_elem_of_In, in_map, list_elem_of_In, elem_of_tooLargeFiles.
      split; [exact Hin | exact Hbig]. }
    destruct (join_split "、" _ _ Hf) as (a & c & Hj). subst text. rewrite Hj.
    replace ("文件大小不能超过10MB，" +:+ (a +:+ name f +:+ c) +:+ "将会被丢弃")
      with (("文件大小不能超过10MB，" +:+ a) +:+ name f +:+ (c +:+ "将会被丢弃"))
      by (rewrite !append_assoc; reflexivity).
    apply includes_append.
Qed.

Lemma single_size_notice_witness :
  filter (λ e, Is_true (isSizeNotice e))
    (allEffects (uploadToGitee [Samples.a_png; Samples.b_pdf]
                   Samples.direct_settings "" Samples.online))
  = [NewNotice "文件大小不能超过10MB，b.pdf将会被丢弃" 5000]
  ∧ includes "文件大小不能超过10MB，b.pdf将会被丢弃" "b.pdf" = true.
Proof.
  pose proof (single_size_notice [Samples.a_png; Samples.b_pdf]
                Samples.direct_settings "" Samples.online) as (_ & _ & H1 & H2).
  split.
  - apply H1. vm_compute. discriminate.
  - apply (H2 Samples.b_pdf); [right; left | vm_compute; reflexivity].
Defined.


(** C7 — order of the inserted text.  When the promises of all the accepted
    files are fulfilled, with values [results] (the value at position [k]
    being the one of the [k]-th accepted file), then in whatever order
    [order] they were fulfilled the editor receives one [replaceSelection],
    whose text is [results] in that positional order, without the empty
    strings, joined by new lines. *)
Theorem inserted_text_in_file_order (fileList : list File)
    (settings : gmap string value) (filePath : string) (w : World)
    (results : list string) (order : list nat) :
  let b := uploadToGitee fileList settings filePath w in
  promises b = Resolved <$> results →
  order ≡ₚ seq 0 (length results) →
  (∀ k v, results !! k = Some v →
          ∃ file, acceptedFiles fileList !! k = Some file
                  ∧ snd (uploadFile settings filePath w k file) = Resolved v)
  ∧ all (promises b) order = Resolved (Some <$> results)
  ∧ insertResults b order
    = [ReplaceSelection (join newline (filter (λ s, s ≠ "") results))].
Proof.
  intros b Hres Hperm. split; [|split].
  - intros k v Hk.
    assert (Hp : promises b !! k = Some (Resolved v)).
    { rewrite Hres, list_lookup_fmap, Hk. reflexivity. }
    unfold b in Hp. rewrite promises_lookup in Hp.
    destruct (acceptedFiles fileList !! k) as [file|]; [|discriminate].
    exists file. split; [reflexivity | now injection Hp].
  - rewrite Hres. now apply all_resolved.
  - unfold insertResults. rewrite Hres, all_resolved by exact Hperm.
    simpl. now rewrite joined_values.
Qed.

Lemma inserted_text_in_file_order_witness :
  insertResults
    (uploadToGitee [Samples.a_png; Samples.b_pdf; Samples.c_txt]
       Samples.direct_settings "" Samples.online) [1; 0]
  = [ReplaceSelection ("![a.png](https://x/0)" +:+ newline +:+ "https://x/n")].
Proof.
  apply (inserted_text_in_file_order
           [Samples.a_png; Samples.b_pdf; Samples.c_txt]
           Samples.direct_settings "" Samples.online
           ["![a.png](https://x/0)"; "https://x/n"] [1; 0]).
  - vm_compute. reflexivity.
  - apply perm_swap.
Defined.

(** C2 — a failed read is soft.  When the read of an accepted file fails, its
    promise performs one effect, a notice of 5000 ms whose text contains the
    name of the file, issues no request, and is fulfilled with the empty
    string.  The promise of the batch is never rejected, and once the other
    files are settled it is fulfilled, with the empty string at the position
    of the file, and the editor receives the joined text. *)
Theorem read_failure_is_soft (fileList : list File)
    (settings : gmap string value) (filePath : string) (w : World)
    (i : nat) (file : File) :
  let b := uploadToGitee fileList settings filePath w in
  acceptedFiles fileList !! i = Some file →
  readAsDataURL w i file = onerror →
  uploads b !! i
  = Some ([NewNotice ("文件读取" +:+ name file +:+ "失败") 5000], Resolved "")
  ∧ includes ("文件读取" +:+ name file +:+ "失败") (name file) = true
  ∧ (∀ order, all (promises b) order ≠ Rejected)
  ∧ (∀ order,
       (∀ j, j ≠ i → j < length (promises b) →
             ∃ v, promises b !! j = Some (Resolved v)) →
       order ≡ₚ seq 0 (length (promises b)) →
       ∃ res, all (promises b) order = Resolved res
              ∧ res !! i = Some (Some "")
              ∧ insertResults b order = [ReplaceSelection (joined res)]).
Proof.
  intros b Hfile Hread.
  assert (Hup : uploads b !! i
    = Some ([NewNotice ("文件读取" +:+ name file +:+ "失败") 5000], Resolved "")).
  { unfold b. rewrite uploads_lookup, Hfile. simpl. unfold uploadFile.
    now rewrite Hread. }
  split; [exact Hup|]. split; [apply includes_append|]. split.
  - intros order. apply all_not_rejected. apply promises_not_rejected.
  - intros order Hothers Hperm.
    assert (Hi : promises b !! i = Some (Resolved "")).
    { unfold promises. rewrite list_lookup_fmap.
      now rewrite Hup. }
    destruct (all_fulfilled_values (promises b)) as [vs Hvs].
    { intros j Hj. destruct (decide (j = i)) as [->|Hne]; [now exists ""|].
      now apply Hothers. }
    exists (Some <$> vs).
    assert (Hlen : length (promises b) = length vs)
      by now rewrite Hvs, length_fmap.
    rewrite Hlen in Hperm.
    split; [rewrite Hvs; now apply all_resolved|]. split.
    + rewrite Hvs, list_lookup_fmap in Hi. rewrite list_lookup_fmap.
      destruct (vs !! i) as [v|]; [|discriminate]. simpl in *. congruence.
    + unfold insertResults. rewrite Hvs, all_resolved by exact Hperm.
      reflexivity.
Qed.

Lemma read_failure_is_soft_witness :
  uploads (uploadToGitee [Samples.a_png; Samples.c_txt]
             Samples.direct_settings "" Samples.unreadable) !! 0
  = Some ([NewNotice "文件读取a.png失败" 5000], Resolved "")
  ∧ insertResults (uploadToGitee [Samples.a_png; Samples.c_txt]
                     Samples.direct_settings "" Samples.unreadable) [1; 0]
    = [ReplaceSelection "https://x/n"].
Proof.
  pose proof (read_failure_is_soft [Samples.a_png; Samples.c_txt]
                Samples.direct_settings "" Samples.unreadable 0 Samples.a_png
                eq_refl eq_refl) as (H1 & _ & _ & H2).
  split; [exact H1|].
  destruct (H2 [1; 0]) as (res & Hres & _ & Hins).
  - intros [|[|j]] Hne Hlt; [contradiction | now exists "https://x/n" |].
    vm_compute in Hlt. lia.
  - apply perm_swap.
  - vm_compute in Hres. injection Hres as <-. exact Hins.
Defined.

(** A failed request that carries a response of the server: the promise of
    the file issues the request, shows a notice of 5000 ms that contains the
    name of the file and the message of the server, and is fulfilled with the
    empty string. *)
Lemma error_response_is_soft (settings : gmap string value)
    (filePath : string) (w : World) (i : nat) (file : File)
    (result msg : string) :
  readAsDataURL w i file = onload result →
  post w i (requestUrl settings filePath file) (requestData settings file result)
  = AxiosError (Some msg) →
  let text := "上传文件" +:+ name file +:+ "失败，失败原因：" +:+ msg in
  uploadFile settings filePath w i file
  = ([AxiosPost (requestUrl settings filePath file)
                (requestData settings file result);
      NewNotice text 5000], Resolved "")
  ∧ includes text (name file) = true
  ∧ includes text msg = true.
Proof.
  intros Hread Hpost text.
  split; [unfold uploadFile; rewrite Hread, Hpost; reflexivity|]. split.
  - apply includes_append.
  - subst text.
    replace ("上传文件" +:+ name file +:+ "失败，失败原因：" +:+ msg)
      with (("上传文件" +:+ name file +:+ "失败，失败原因：") +:+ msg +:+ "")
      by (rewrite !append_assoc, append_nil_r; reflexivity).
    apply includes_append.
Qed.


(** C1 — the request of [a.png] gets no response while the one of [c.txt]
    succeeds: the promise of [a.png] performs the request and nothing else, no
    notice is shown, it stays pending, and so does the promise of the batch in
    either order of completion: the editor receives nothing, not even the
    link to [c.txt]. *)
Theorem no_response_batch_hangs :
  let b := uploadToGitee [Samples.a_png; Samples.c_txt]
             Samples.direct_settings "" Samples.offline in
  uploads b
  = [([AxiosPost "https://gitee.com/api/v5/repos/o/r/contents/img//a.png"
         (mkPostData (Some (VStr "t0k")) "QUJD" "upload image")], Pending);
     ([AxiosPost "https://gitee.com/api/v5/repos/o/r/contents/img//c.txt"
         (mkPostData (Some (VStr "t0k")) "QUJD" "upload image")],
      Resolved "https://x/n")]
  ∧ filter (λ e, Is_true (negb (isPost e))) (allEffects b) = []
  ∧ all (promises b) [0; 1] = Pending
  ∧ all (promises b) [1; 0] = Pending
  ∧ insertResults b [0; 1] = []
  ∧ insertResults b [1; 0] = [].
Proof. vm_compute. repeat split; reflexivity. Qed.

(** C3, as stated, fails — on the path that does not prompt, the sub-path
    segment is not left out of the request path: it is the empty string
    between its two slashes.  With base path [img] and file [c.txt] the
    request goes to [.../contents/img//c.txt], not to
    [.../contents/img/c.txt]. *)
Lemma sub_path_segment_not_omitted :
  snd (uploadFiles (mkMyPlugin Samples.direct_settings) ∅
         (Some [Samples.c_txt]) (Samples.paste (Some [Samples.c_txt])))
  = Upload [Samples.c_txt] Samples.direct_settings ""
  ∧ batchRequests (uploadToGitee [Samples.c_txt] Samples.direct_settings ""
                     Samples.online)
    = [AxiosPost "https://gitee.com/api/v5/repos/o/r/contents/img//c.txt"
         (mkPostData (Some (VStr "t0k")) "QUJD" "upload image")]
  ∧ Spec.requestUrl Samples.direct_settings None Samples.c_txt
    = "https://gitee.com/api/v5/repos/o/r/contents/img/c.txt"
  ∧ batchRequests (uploadToGitee [Samples.c_txt] Samples.direct_settings ""
                     Samples.online)
    ≠ [AxiosPost (Spec.requestUrl Samples.direct_settings None Samples.c_txt)
         (mkPostData (Some (VStr "t0k")) "QUJD" "upload image")].
Proof.
  split.
  { assert (H : truthy (Samples.direct_settings !! "subPathable") = false)
      by (vm_compute; reflexivity).
    unfold uploadFiles. cbn [settings]. rewrite H. reflexivity. }
  split; [vm_compute; reflexivity|].
  split; [vm_compute; reflexivity|].
  vm_compute. discriminate.
Qed.

(** C3, amended — an accepted file whose read succeeds issues exactly one
    request, to the URL made of the repository, the base path, a slash, the
    sub-path, a slash and the file name.  On the path that does not prompt
    the sub-path is the empty string, so the base path and the file name are
    separated by two slashes; on the prompting path it is the content of the
    text field when the button is clicked. *)
Theorem one_request_at_composed_path (this : MyPlugin)
    (localStorage : gmap string string) (event : Event)
    (fileList : list File) (filePath : string) (w : World)
    (i : nat) (file : File) (result : string) :
  acceptedFiles fileList !! i = Some file →
  readAsDataURL w i file = onload result →
  let url sub :=
    "https://gitee.com/api/v5/repos/" +:+ template (settings this !! "repo")
    +:+ "/contents/" +:+ template (settings this !! "path")
    +:+ "/" +:+ sub +:+ "/" +:+ name file in
  let data := requestData (settings this) file result in
  (∃ effs p,
     uploads (uploadToGitee fileList (settings this) filePath w) !! i
     = Some (effs, p)
     ∧ requests effs = [AxiosPost (url filePath) data])
  ∧ (∀ fl s sub,
       snd (uploadFiles this localStorage (Some fileList) event)
       = Upload fl s sub →
       fl = fileList ∧ s = settings this ∧ sub = ""
       ∧ ∃ effs p,
         uploads (uploadToGitee fl s sub w) !! i = Some (effs, p)
         ∧ requests effs
           = [AxiosPost ("https://gitee.com/api/v5/repos/"
                         +:+ template (settings this !! "repo")
                         +:+ "/contents/"
                         +:+ template (settings this !! "path")
                         +:+ "//" +:+ name file) data])
  ∧ (∀ m, Plugin.fileList m = fileList →
          modalSettings m = settings this →
          ∃ effs p,
            uploads (modalOnClick m w) !! i = Some (effs, p)
            ∧ requests effs = [AxiosPost (url (Plugin.filePath m)) data]).
Proof.
  intros Hfile Hread url data.
  assert (Hgen : ∀ sub, ∃ effs p,
    uploads (uploadToGitee fileList (settings this) sub w) !! i = Some (effs, p)
    ∧ requests effs = [AxiosPost (url sub) data]).
  { intros sub. rewrite uploads_lookup, Hfile. simpl.
    unfold uploadFile. rewrite Hread.
    fold (requestUrl (settings this) sub file). fold data.
    destruct (post w i _ _) as [download_url|[msg|]];
      eexists; eexists; (split; [reflexivity|]); reflexivity. }
  split; [apply Hgen|]. split.
  - intros fl s sub Hrun. unfold uploadFiles in Hrun.
    destruct fileList as [|f fl']; [discriminate|].
    destruct (truthy (settings this !! "subPathable")); [discriminate|].
    simpl in Hrun. injection Hrun as <- <- <-.
    repeat split. apply (Hgen "").
  - intros m <- Hs. unfold modalOnClick. rewrite Hs. apply Hgen.
Qed.

Lemma one_request_at_composed_path_witness :
  ∃ effs p,
    uploads (uploadToGitee [Samples.c_txt] Samples.direct_settings "pics"
               Samples.online) !! 0 = Some (effs, p)
    ∧ requests effs
      = [AxiosPost (requestUrl Samples.direct_settings "pics" Samples.c_txt)
           (requestData Samples.direct_settings Samples.c_txt
              "data:text/plain;base64,QUJD")].
Proof.
  exact (proj1 (one_request_at_composed_path
                  (mkMyPlugin Samples.direct_settings) ∅
                  (Samples.paste (Some [Samples.c_txt])) [Samples.c_txt] "pics"
                  Samples.online 0 Samples.c_txt "data:text/plain;base64,QUJD"
                  eq_refl eq_refl)).
Defined.

(** C4, as stated, fails — the code does not test whether the MIME type
    starts with [image/] but whether it contains [image]: a successfully
    uploaded OpenDocument image, of type
    [application/vnd.oasis.opendocument.image], gets the Markdown image
    syntax and not the bare URL. *)
Lemma image_test_is_not_a_prefix_test :
  startsWith (type Samples.d_odi) "image/" = false
  ∧ promises (uploadToGitee [Samples.d_odi] Samples.direct_settings ""
                Samples.online)
    = [Resolved "![d.odi](https://x/0)"]
  ∧ Spec.displayText Samples.d_odi "https://x/0" = "https://x/0"
  ∧ promises (uploadToGitee [Samples.d_odi] Samples.direct_settings ""
                Samples.online)
    ≠ [Resolved (Spec.displayText Samples.d_odi "https://x/0")].
Proof.
  split; [vm_compute; reflexivity|].
  split; [vm_compute; reflexivity|].
  split; [vm_compute; reflexivity|].
  vm_compute. discriminate.
Qed.

(** C4, amended — a successful upload of a file whose MIME type contains
    [image] (in particular one whose type starts with [image/]) is fulfilled
    with exactly [![<name>](<download_url>)]; a successful upload of a file
    whose MIME type does not contain [image] is fulfilled with exactly
    [<download_url>]. *)
Theorem display_text_by_mime_type (fileList : list File)
    (settings : gmap string value) (filePath : string) (w : World)
    (i : nat) (file : File) (result download_url : string) :
  acceptedFiles fileList !! i = Some file →
  readAsDataURL w i file = onload result →
  post w i (requestUrl settings filePath file) (requestData settings file result)
  = AxiosResponse download_url →
  let p := promises (uploadToGitee fileList settings filePath w) !! i in
  (includes (type file) "image" = true →
   p = Some (Resolved ("![" +:+ name file +:+ "](" +:+ download_url +:+ ")")))
  ∧ (startsWith (type file) "image/" = true →
     p = Some (Resolved ("![" +:+ name file +:+ "](" +:+ download_url +:+ ")")))
  ∧ (includes (type file) "image" = false →
     p = Some (Resolved download_url)).
Proof.
  intros Hfile Hread Hpost p.
  assert (Hp : p = Some (Resolved (onFulfilled file download_url))).
  { unfold p. rewrite promises_lookup, Hfile. simpl. unfold uploadFile.
    now rewrite Hread, Hpost. }
  assert (Himg : includes (type file) "image" = true →
    p = Some (Resolved ("![" +:+ name file +:+ "](" +:+ download_url +:+ ")"))).
  { intros Hinc. rewrite Hp. unfold onFulfilled. now rewrite Hinc. }
  split; [exact Himg|]. split.
  - intros Hstart. apply Himg. now apply startsWith_image_includes.
  - intros Hinc. rewrite Hp. unfold onFulfilled. now rewrite Hinc.
Qed.

Lemma display_text_by_mime_type_witness :
  promises (uploadToGitee [Samples.a_png; Samples.c_txt]
              Samples.direct_settings "" Samples.online) !! 0
  = Some (Resolved "![a.png](https://x/0)")
  ∧ promises (uploadToGitee [Samples.a_png; Samples.c_txt]
                Samples.direct_settings "" Samples.online) !! 1
    = Some (Resolved "https://x/n").
Proof.
  split.
  - apply (display_text_by_mime_type [Samples.a_png; Samples.c_txt]
             Samples.direct_settings "" Samples.online 0 Samples.a_png
             "data:image/png;base64,QUJD" "https://x/0");
      reflexivity.
  - apply (display_text_by_mime_type [Samples.a_png; Samples.c_txt]
             Samples.direct_settings "" Samples.online 1 Samples.c_txt
             "data:text/plain;base64,QUJD" "https://x/n");
      reflexivity.
Defined.

(** C8 — dispatch of a paste or drop event.  When the event carries no file
    list or an empty one, the handler leaves the event as it is and does
    nothing.  When it carries files, the default action is prevented and the
    propagation stopped whatever the configuration, and the handler opens the
    modal when [subPathable] is truthy in the settings of that moment and
    calls [uploadToGitee] directly (with the empty sub-path) otherwise; in
    particular an event that follows a change of the toggle is dispatched by
    the new value. *)
Theorem event_dispatch (this : MyPlugin) (localStorage : gmap string string)
    (event : Event) :
  (files event = None ∨ files event = Some [] →
   onEditorEvent this localStorage event = (event, Return))
  ∧ (∀ f fl, files event = Some (f :: fl) →
       let r := onEditorEvent this localStorage event in
       defaultPrevented (fst r) = true
       ∧ propagationStopped (fst r) = true
       ∧ kind (fst r) = kind event
       ∧ files (fst r) = files event
       ∧ (truthy (settings this !! "subPathable") = true →
          snd r = OpenModal (newSampleModal localStorage (f :: fl) (settings this)))
       ∧ (truthy (settings this !! "subPathable") = false →
          snd r = Upload (f :: fl) (settings this) ""))
  ∧ (∀ f fl v st, files event = Some (f :: fl) →
       let this' := fst (toggleSubPathable v this st) in
       snd (onEditorEvent this' localStorage event)
       = if v
         then OpenModal (newSampleModal localStorage (f :: fl) (settings this'))
         else Upload (f :: fl) (settings this') "").
Proof.
  unfold onEditorEvent, uploadFiles. split; [|split].
  - intros [-> | ->]; reflexivity.
  - intros f fl Hf. rewrite Hf. cbv zeta.
    destruct (truthy (settings this !! "subPathable")); simpl;
      repeat split; intros; congruence.
  - intros f fl v st ->. cbv zeta.
    unfold toggleSubPathable, Settings.onChange. cbn [fst settings].
    rewrite lookup_insert_eq. now destruct v.
Qed.

Lemma event_dispatch_witness :
  onEditorEvent (mkMyPlugin Samples.direct_settings) ∅ (Samples.paste None)
  = (Samples.paste None, Return)
  ∧ snd (onEditorEvent (mkMyPlugin Samples.direct_settings) ∅
           (Samples.paste (Some [Samples.c_txt])))
    = Upload [Samples.c_txt] Samples.direct_settings ""
  ∧ snd (onEditorEvent (mkMyPlugin Settings.DEFAULT_SETTINGS) ∅
           (Samples.paste (Some [Samples.c_txt])))
    = OpenModal (newSampleModal ∅ [Samples.c_txt] Settings.DEFAULT_SETTINGS).
Proof.
  split; [|split].
  - apply (proj1 (event_dispatch (mkMyPlugin Samples.direct_settings) ∅
                    (Samples.paste None))). now left.
  - apply (proj1 (proj2 (event_dispatch (mkMyPlugin Samples.direct_settings) ∅
                           (Samples.paste (Some [Samples.c_txt]))))
             Samples.c_txt [] eq_refl).
    vm_compute. reflexivity.
  - apply (proj1 (proj2 (event_dispatch (mkMyPlugin Settings.DEFAULT_SETTINGS) ∅
                           (Samples.paste (Some [Samples.c_txt]))))
             Samples.c_txt [] eq_refl).
    vm_compute. reflexivity.
Defined.

Section SettingsFacts.
Import Settings.

Lemma DEFAULT_SETTINGS_fields (k : string) :
  is_Some (DEFAULT_SETTINGS !! k) ↔ k ∈ fields.
Proof.
  unfold DEFAULT_SETTINGS, fields. split.
  - intros [v Hv].
    do 5 (apply lookup_insert_Some in Hv as [[<- _] | [_ Hv]];
          [repeat constructor|]).
    rewrite lookup_empty in Hv. discriminate.
  - intros Hin. repeat (apply elem_of_cons in Hin as [-> | Hin];
                        [vm_compute; eauto|]).
    inversion Hin.
Qed.

Lemma loadSettings_complete (st : store) : complete (loadSettings st).
Proof.
  intros k Hk. apply DEFAULT_SETTINGS_fields in Hk.
  unfold loadSettings, loadData, assign. destruct st as [data|]; [|exact Hk].
  apply lookup_union_is_Some. now right.
Qed.

(** The handlers of the setting tab keep the five properties. *)
Lemma onChange_complete (k : string) (v : value) (s : gmap string value)
    (st : store) :
  complete s → complete (fst (onChange k v s st)).
Proof.
  intros Hs j Hj. simpl. apply lookup_insert_is_Some.
  destruct (decide (k = j)); [now left | right; split; [assumption | now apply Hs]].
Qed.

Lemma assign_complete (s : gmap string value) :
  complete s → assign DEFAULT_SETTINGS (Some s) = s.
Proof.
  intros Hs. simpl. apply map_eq. intros k.
  destruct (s !! k) as [v|] eqn:Hk.
  - now apply lookup_union_Some_l.
  - rewrite lookup_union_r by exact Hk.
    destruct (DEFAULT_SETTINGS !! k) as [d|] eqn:Hd; [|reflexivity].
    assert (Hin : k ∈ fields) by (apply DEFAULT_SETTINGS_fields; eauto).
    apply Hs in Hin as [v Hv]. congruence.
Qed.

End SettingsFacts.

(** C9 — settings round trip.  A configuration that has the five properties
    of [MyPluginSettings] is read back unchanged after it was saved, also when
    it is saved by a handler of the setting tab.  Whatever the stored data,
    the configuration loaded from it has the five properties: a property of
    the stored object keeps its stored value, and a property the stored
    object lacks has the value of [DEFAULT_SETTINGS]. *)
Theorem settings_round_trip (s : gmap string value) (st st0 : Settings.store)
    (k : string) (v : value) :
  Settings.complete s →
  Settings.loadSettings (Settings.saveSettings s st0) = s
  ∧ Settings.loadSettings (snd (Settings.onChange k v s st0))
    = fst (Settings.onChange k v s st0)
  ∧ Settings.complete (Settings.loadSettings st)
  ∧ (∀ j, j ∈ ["repo"; "branch"; "path"; "token"; "subPathable"] →
          is_Some (Settings.loadSettings st !! j))
  ∧ (∀ data j x, st = Some data → data !! j = Some x →
                 Settings.loadSettings st !! j = Some x)
  ∧ (∀ data j, st = Some data → data !! j = None →
               Settings.loadSettings st !! j = Settings.DEFAULT_SETTINGS !! j)
  ∧ (st = None → Settings.loadSettings st = Settings.DEFAULT_SETTINGS).
Proof.
  intros Hs. split; [now apply assign_complete|]. split.
  { apply assign_complete. now apply (onChange_complete k v s st0). }
  split; [apply loadSettings_complete|].
  split; [apply loadSettings_complete|].
  split; [|split].
  - intros data j x -> Hj. now apply lookup_union_Some_l.
  - intros data j -> Hj. now apply lookup_union_r.
  - now intros ->.
Qed.

Lemma settings_round_trip_witness :
  Settings.loadSettings (Settings.saveSettings Samples.direct_settings None)
  = Samples.direct_settings.
Proof.
  apply (settings_round_trip Samples.direct_settings None None "repo" (VStr "")).
  intros j Hj. unfold Settings.fields in Hj.
  repeat (apply elem_of_cons in Hj as [-> | Hj]; [vm_compute; eauto|]).
  inversion Hj.
Defined.

(** C10 — the branch is never read.  Two configurations that agree on every
    property but [branch] give the same batch on the same files, sub-path and
    environment: the same notices, the same requests (URL and body) by
    position, the same promises, and so the same text in the editor. *)
Theorem branch_is_never_read (s1 s2 : gmap string value)
    (fileList : list File) (filePath : string) (w : World)
    (order : list nat) :
  (∀ k, k ≠ "branch" → s1 !! k = s2 !! k) →
  uploadToGitee fileList s1 filePath w = uploadToGitee fileList s2 filePath w
  ∧ batchRequests (uploadToGitee fileList s1 filePath w)
    = batchRequests (uploadToGitee fileList s2 filePath w)
  ∧ all (promises (uploadToGitee fileList s1 filePath w)) order
    = all (promises (uploadToGitee fileList s2 filePath w)) order
  ∧ insertResults (uploadToGitee fileList s1 filePath w) order
    = insertResults (uploadToGitee fileList s2 filePath w) order.
Proof.
  intros Hagree.
  assert (Heq : uploadToGitee fileList s1 filePath w
                = uploadToGitee fileList s2 filePath w).
  { unfold uploadToGitee. f_equal. apply imap_ext. intros i file _.
    unfold uploadFile, requestUrl, requestData.
    now rewrite (Hagree "repo"), (Hagree "path"), (Hagree "token"). }
  now rewrite Heq.
Qed.

Lemma branch_is_never_read_witness :
  batchRequests (uploadToGitee [Samples.a_png; Samples.c_txt]
                   Samples.direct_settings "" Samples.online)
  = batchRequests (uploadToGitee [Samples.a_png; Samples.c_txt]
                     (<["branch" := VStr "dev"]> Samples.direct_settings) ""
                     Samples.online).
Proof.
  apply (branch_is_never_read Samples.direct_settings
           (<["branch" := VStr "dev"]> Samples.direct_settings)
           [Samples.a_png; Samples.c_txt] "" Samples.online [0; 1]).
  intros k Hk. symmetry. apply lookup_insert_ne. congruence.
Defined.

(* ===================================================================== *)
(** * Further properties: the body of the request *)
(* ===================================================================== *)

Section ReplaceFacts.

Lemma replace_unfold (s pat rep : string) :
  replace s pat rep =
  if String.prefix pat s then rep +:+ slice (String.length pat) s
  else match s with
       | EmptyString => EmptyString
       | String c s' => String c (replace s' pat rep)
       end.
Proof. destruct s; reflexivity. Qed.

Lemma slice_append (p s : string) : slice (String.length p) (p +:+ s) = s.
Proof. induction p as [|x p IH]; [now destruct s | exact IH]. Qed.

(** A pattern at the start of a string is what [replace] removes. *)
Lemma replace_prefix (pat s : string) : replace (pat +:+ s) pat "" = s.
Proof.
  rewrite replace_unfold, prefix_append, slice_append. reflexivity.
Qed.

(** Without an occurrence of the pattern, [replace] changes nothing. *)
Lemma replace_absent (s pat rep : string) :
  includes s pat = false → replace s pat rep = s.
Proof.
  induction s as [|c s IH]; intros Hinc;
    rewrite includes_unfold in Hinc; rewrite replace_unfold;
    destruct (String.prefix pat _); try discriminate; [reflexivity|].
  now rewrite IH.
Qed.

End ReplaceFacts.

(** The content of the request is the base64 payload: when the reader
    delivers the data URL of the file with the MIME type the file declares,
    the [data:<type>;base64,] header is removed and the payload is sent
    unchanged, whatever it contains. *)
Theorem data_url_header_stripped (settings : gmap string value) (file : File)
    (payload : string) :
  content (requestData settings file
             ("data:" +:+ type file +:+ ";base64," +:+ payload))
  = payload.
Proof.
  unfold requestData. cbn [content].
  replace ("data:" +:+ type file +:+ ";base64," +:+ payload)
    with (("data:" +:+ type file +:+ ";base64,") +:+ payload)
    by (rewrite !append_assoc; reflexivity).
  apply replace_prefix.
Qed.

(** When the header built from [file.type] does not occur in what the reader
    delivers, nothing is removed: the whole data URL, header included, is
    sent as content.  This is what happens to a file without MIME type, whose
    data URL declares [application/octet-stream]. *)
Theorem data_url_header_kept_when_type_differs (settings : gmap string value)
    (file : File) (result : string) :
  includes result ("data:" +:+ type file +:+ ";base64,") = false →
  content (requestData settings file result) = result.
Proof. intros Hinc. unfold requestData. cbn [content]. now apply replace_absent. Qed.

Lemma data_url_header_kept_when_type_differs_witness :
  type Cases.e_bin = ""
  ∧ content (requestData Samples.direct_settings Cases.e_bin
               "data:application/octet-stream;base64,QUJD")
    = "data:application/octet-stream;base64,QUJD".
Proof.
  split; [reflexivity|].
  apply (data_url_header_kept_when_type_differs Samples.direct_settings
           Cases.e_bin "data:application/octet-stream;base64,QUJD").
  vm_compute. reflexivity.
Defined.

(* ===================================================================== *)
(** * Further properties: the size filter and whole batches *)
(* ===================================================================== *)

Section FilterFacts.

Lemma filter_all {A : Type} (P : A → Prop) `{!∀ x, Decision (P x)}
    (l : list A) :
  (∀ x, x ∈ l → P x) → filter P l = l.
Proof.
  induction l as [|x l IH]; intros Hl; [reflexivity|].
  rewrite filter_cons. destruct (decide (P x)) as [_|Hx].
  - f_equal. apply IH. intros y Hy. apply Hl. now right.
  - exfalso. apply Hx, Hl. now left.
Qed.

Lemma withinLimit_tooLarge (file : File) :
  withinLimit file = negb (tooLarge file).
Proof.
  unfold withinLimit, tooLarge.
  destruct (Z.leb_spec (size file) limit), (Z.ltb_spec limit (size file));
    simpl; try reflexivity; lia.
Qed.

Lemma size_filter_lengths (fileList : list File) :
  length (acceptedFiles fileList) + length (tooLargeFiles fileList)
  = length fileList.
Proof.
  unfold acceptedFiles, tooLargeFiles.
  induction fileList as [|f fl IH]; [reflexivity|].
  rewrite !filter_cons, withinLimit_tooLarge.
  destruct (tooLarge f); simpl; lia.
Qed.

(** [Promise.all] of no promise is fulfilled at once. *)
Lemma all_nil (order : list nat) : all [] order = Resolved [].
Proof.
  assert (H : ∀ st, fold_left (all_step []) order st = st).
  { induction order as [|i order IH]; intros st; [reflexivity|].
    simpl. apply IH. }
  unfold all. now rewrite H.
Qed.

End FilterFacts.

(** The size filter splits the batch in two: every file is either accepted
    or named in the notice, never both; both parts keep the order of the
    batch, and together they have as many files as the batch. *)
Theorem size_filter_partitions (fileList : list File) :
  acceptedFiles fileList `sublist_of` fileList
  ∧ tooLargeFiles fileList `sublist_of` fileList
  ∧ length (acceptedFiles fileList) + length (tooLargeFiles fileList)
    = length fileList
  ∧ (∀ f, f ∈ fileList →
          (f ∈ acceptedFiles fileList ∧ f ∉ tooLargeFiles fileList)
          ∨ (f ∈ tooLargeFiles fileList ∧ f ∉ acceptedFiles fileList)).
Proof.
  split; [apply sublist_filter|]. split; [apply sublist_filter|].
  split; [apply size_filter_lengths|].
  intros f Hf. destruct (Z.le_gt_cases (size f) limit) as [Hle|Hgt].
  - left. split; [apply elem_of_acceptedFiles; tauto|].
    intros Hin. apply elem_of_tooLargeFiles in Hin as [_ Hin]. lia.
  - right. split; [apply elem_of_tooLargeFiles; tauto|].
    intros Hin. apply elem_of_acceptedFiles in Hin as [_ Hin]. lia.
Qed.

Lemma size_filter_partitions_witness :
  Samples.a_png ∈ acceptedFiles [Samples.a_png; Samples.b_pdf]
  ∨ Samples.a_png ∈ tooLargeFiles [Samples.a_png; Samples.b_pdf].
Proof.
  destruct (proj2 (proj2 (proj2 (size_filter_partitions
              [Samples.a_png; Samples.b_pdf]))) Samples.a_png)
    as [[H _] | [H _]]; [left | now left | now right].
Defined.

(** A batch of oversized files only: nothing is read or requested, the one
    effect is the notice that names every file of the batch, and the editor
    receives the empty string at once, in place of the selection. *)
Theorem oversized_batch_inserts_nothing (f : File) (fl : list File)
    (settings : gmap string value) (filePath : string) (w : World)
    (order : list nat) :
  (∀ g, g ∈ f :: fl → (1024 * 1024 * 10 < size g)%Z) →
  let b := uploadToGitee (f :: fl) settings filePath w in
  uploads b = []
  ∧ allEffects b
    = [NewNotice ("文件大小不能超过10MB，" +:+ join "、" (map name (f :: fl))
                  +:+ "将会被丢弃") 5000]
  ∧ insertResults b order = [ReplaceSelection ""].
Proof.
  intros Hbig b.
  assert (Hacc : acceptedFiles (f :: fl) = []).
  { apply filter_none. intros g Hg Hin. apply Hbig in Hg.
    apply Is_true_true, Z.leb_le in Hin. unfold limit in Hin. lia. }
  assert (Hlarge : tooLargeFiles (f :: fl) = f :: fl).
  { apply filter_all. intros g Hg. apply Hbig in Hg.
    apply Is_true_true, Z.ltb_lt. exact Hg. }
  assert (Hup : uploads b = []) by (unfold b; simpl; now rewrite Hacc).
  split; [exact Hup|]. split.
  - unfold allEffects. rewrite Hup. simpl. rewrite app_nil_r.
    unfold tooLargeNotice. now rewrite Hlarge.
  - unfold insertResults, promises. rewrite Hup. simpl map.
    now rewrite all_nil.
Qed.

Lemma oversized_batch_inserts_nothing_witness :
  insertResults (uploadToGitee [Samples.b_pdf] Samples.direct_settings ""
                   Samples.online) []
  = [ReplaceSelection ""].
Proof.
  apply (oversized_batch_inserts_nothing Samples.b_pdf []
           Samples.direct_settings "" Samples.online []).
  intros g Hg. apply list_elem_of_singleton in Hg as ->.
  vm_compute. reflexivity.
Defined.

Section OutcomeFacts.

Variables (settings : gmap string value) (filePath : string) (w : World).


Lemma uploadFile_requests_le (i : nat) (file : File) :
  (length (requests (fst (uploadFile settings filePath w i file))) ≤ 1)%nat.
Proof.
  unfold uploadFile.
  destruct (readAsDataURL w i file) as [result|]; [|vm_compute; lia].
  destruct (post w i _ _) as [url|[msg|]]; simpl; vm_compute; lia.
Qed.

Lemma uploadFile_notices_le (i : nat) (file : File) :
  (length (filter (λ e, Is_true (negb (isPost e)))
             (fst (uploadFile settings filePath w i file))) ≤ 1)%nat.
Proof.
  unfold uploadFile.
  destruct (readAsDataURL w i file) as [result|]; [|vm_compute; lia].
  destruct (post w i _ _) as [url|[msg|]]; simpl; vm_compute; lia.
Qed.

Lemma length_concat_le {A : Type} (ls : list (list A)) :
  Forall (λ l, (length l ≤ 1)%nat) ls → (length (concat ls) ≤ length ls)%nat.
Proof.
  induction 1 as [|l ls Hl _ IH]; [reflexivity|].
  simpl. rewrite length_app. lia.
Qed.

Lemma length_filter_concat_le {A : Type} (P : A → Prop)
    `{!∀ x, Decision (P x)} (ls : list (list A)) :
  Forall (λ l, (length (filter P l) ≤ 1)%nat) ls →
  (length (filter P (concat ls)) ≤ length ls)%nat.
Proof.
  induction 1 as [|l ls Hl _ IH]; [reflexivity|].
  simpl. rewrite filter_app, length_app. lia.
Qed.

End OutcomeFacts.





(** No retry, no flood.  A batch issues at most one request per accepted
    file, hence at most as many requests as it has files, and shows at most
    one notice per accepted file besides the notice about the size. *)
Theorem at_most_one_request_per_file (fileList : list File)
    (settings : gmap string value) (filePath : string) (w : World) :
  let b := uploadToGitee fileList settings filePath w in
  (length (batchRequests b) ≤ length (acceptedFiles fileList))%nat
  ∧ (length (batchRequests b) ≤ length fileList)%nat
  ∧ (length (filter (λ e, Is_true (negb (isPost e))) (allEffects b))
     ≤ 1 + length (acceptedFiles fileList))%nat.
Proof.
  intros b.
  assert (Hreq : (length (batchRequests b) ≤ length (acceptedFiles fileList))%nat).
  { unfold batchRequests.
    etransitivity; [apply length_concat_le|].
    - apply Forall_forall. intros l Hl.
      apply list_elem_of_In, in_map_iff in Hl as (u & <- & Hu).
      apply list_elem_of_In, elem_of_lookup_imap in Hu as (i & file & -> & _).
      apply uploadFile_requests_le.
    - unfold b. simpl. now rewrite length_map, length_imap. }
  split; [exact Hreq|]. split.
  - etransitivity; [exact Hreq | apply length_filter].
  - unfold allEffects. rewrite filter_app, length_app.
    apply Nat.add_le_mono.
    + etransitivity; [apply length_filter|]. unfold b. simpl.
      unfold tooLargeNotice. destruct (tooLargeFiles fileList); simpl; lia.
    + etransitivity; [apply length_filter_concat_le|].
      * apply Forall_forall. intros l Hl.
        apply list_elem_of_In, in_map_iff in Hl as (u & <- & Hu).
        apply list_elem_of_In, elem_of_lookup_imap in Hu as (i & file & -> & _).
        apply uploadFile_notices_le.
      * unfold b. simpl. now rewrite length_map, length_imap.
Qed.

(** Where requests go and how long notices stay.  Every request of a batch
    is sent to the contents API of gitee.com, with the configured token and
    the fixed commit message in its body; every notice is shown for
    5000 ms. *)
Theorem effects_are_uniform (fileList : list File)
    (settings : gmap string value) (filePath : string) (w : World)
    (e : effect) :
  e ∈ allEffects (uploadToGitee fileList settings filePath w) →
  match e with
  | AxiosPost url data =>
      startsWith url "https://gitee.com/api/v5/repos/" = true
      ∧ access_token data = settings !! "token"
      ∧ message data = "upload image"
  | NewNotice _ duration => duration = 5000%Z
  end.
Proof.
  unfold allEffects. intros He. apply elem_of_app in He as [He | He].
  - simpl in He. unfold tooLargeNotice in He.
    destruct (tooLargeFiles fileList); [inversion He|].
    now apply list_elem_of_singleton in He as ->.
  - apply elem_of_upload_effects in He as (i & file & _ & He).
    apply uploadFile_effects in He as [[result ->] | [-> | [msg ->]]];
      try reflexivity.
    split; [|split; reflexivity].
    unfold startsWith, requestUrl. apply prefix_append.
Qed.

Lemma effects_are_uniform_witness :
  startsWith (requestUrl Samples.direct_settings "" Samples.c_txt)
    "https://gitee.com/api/v5/repos/" = true.
Proof.
  apply (effects_are_uniform [Samples.c_txt] Samples.direct_settings ""
           Samples.online
           (AxiosPost (requestUrl Samples.direct_settings "" Samples.c_txt)
              (requestData Samples.direct_settings Samples.c_txt
                 "data:text/plain;base64,QUJD"))).
  unfold allEffects. apply elem_of_app. right. left.
Defined.

(* ===================================================================== *)
(** * Further properties: the modal and the remembered sub-path *)
(* ===================================================================== *)


Section ModalFacts.

Lemma or_string_Some (v : string) : or_string (Some v) "" = v.
Proof. simpl. now destruct (String.eqb_spec v "") as [->|]. Qed.

Lemma typing_snoc (vs : list string) (v : string) (m : SampleModal)
    (ls : gmap string string) :
  Lifecycle.typing (vs ++ [v]) m ls
  = modalOnChange v (fst (Lifecycle.typing vs m ls)) (snd (Lifecycle.typing vs m ls)).
Proof. unfold Lifecycle.typing. now rewrite fold_left_app. Qed.

Lemma typing_keeps (vs : list string) (m : SampleModal)
    (ls : gmap string string) :
  Plugin.fileList (fst (Lifecycle.typing vs m ls)) = Plugin.fileList m
  ∧ modalSettings (fst (Lifecycle.typing vs m ls)) = modalSettings m
  ∧ ∀ k, k ≠ "filePath" → snd (Lifecycle.typing vs m ls) !! k = ls !! k.
Proof.
  induction vs as [|v vs IH] using rev_ind; [easy|].
  rewrite typing_snoc. destruct IH as (Hfl & Hs & Hk).
  split; [exact Hfl|]. split; [exact Hs|].
  intros k Hne. simpl. rewrite lookup_insert_ne by congruence. now apply Hk.
Qed.


End ModalFacts.

(** The sub-path is remembered at every keystroke.  After the user typed in
    the field, the modal holds the last content of the field and so does the
    local storage, whether or not the button is clicked: the next modal is
    created with that content.  Typing changes neither the files, nor the
    settings of the modal, nor any other key of the local storage. *)
Theorem sub_path_remembered (vs : list string) (v : string)
    (m : SampleModal) (localStorage : gmap string string)
    (fl : list File) (s : gmap string value) :
  let r := Lifecycle.typing (vs ++ [v]) m localStorage in
  Plugin.filePath (fst r) = v
  ∧ snd r !! "filePath" = Some v
  ∧ Plugin.filePath (newSampleModal (snd r) fl s) = v
  ∧ Plugin.fileList (fst r) = Plugin.fileList m
  ∧ modalSettings (fst r) = modalSettings m
  ∧ (∀ k, k ≠ "filePath" → snd r !! k = localStorage !! k).
Proof.
  intros r. destruct (typing_keeps (vs ++ [v]) m localStorage) as (Hfl & Hs & Hk).
  assert (Hls : snd r !! "filePath" = Some v).
  { unfold r. rewrite typing_snoc. simpl. apply lookup_insert_eq. }
  split; [unfold r; now rewrite typing_snoc|].
  split; [exact Hls|]. split.
  - unfold newSampleModal. cbn [Plugin.filePath]. rewrite Hls.
    apply or_string_Some.
  - split; [exact Hfl|]. split; [exact Hs | exact Hk].
Qed.

Lemma sub_path_remembered_witness :
  snd (Lifecycle.typing (["i"; "im"] ++ ["img"])
         (newSampleModal ∅ [Samples.c_txt] Cases.prompting_settings)
         (<["theme" := "dark"]> ∅)) !! "theme"
  = Some "dark".
Proof.
  rewrite (proj2 (proj2 (proj2 (proj2 (proj2
             (sub_path_remembered ["i"; "im"] "img"
                (newSampleModal ∅ [Samples.c_txt] Cases.prompting_settings)
                (<["theme" := "dark"]> ∅) [] ∅))))) "theme");
    [apply lookup_insert_eq | discriminate].
Defined.

(** The prompting path.  When [subPathable] is truthy, an event with files
    opens a modal pre-filled with the remembered sub-path (the empty string
    when nothing is remembered).  Clicking the button uploads the files of
    the event with the settings of that moment and, as sub-path, the content
    of the field: the remembered one if the user typed nothing, the last
    content typed otherwise. *)
Theorem prompting_path_uploads_field_content (this : MyPlugin)
    (localStorage : gmap string string) (event : Event)
    (f : File) (fl : list File) (w : World) :
  files event = Some (f :: fl) →
  truthy (settings this !! "subPathable") = true →
  ∃ m, snd (onEditorEvent this localStorage event) = OpenModal m
       ∧ Plugin.filePath m = or_string (localStorage !! "filePath") ""
       ∧ (localStorage !! "filePath" = None → Plugin.filePath m = "")
       ∧ modalOnClick m w
         = uploadToGitee (f :: fl) (settings this)
             (or_string (localStorage !! "filePath") "") w
       ∧ ∀ vs v,
           modalOnClick (fst (Lifecycle.typing (vs ++ [v]) m localStorage)) w
           = uploadToGitee (f :: fl) (settings this) v w.
Proof.
  intros Hfiles Htruthy.
  exists (newSampleModal localStorage (f :: fl) (settings this)).
  split.
  { unfold onEditorEvent, uploadFiles. now rewrite Hfiles, Htruthy. }
  split; [reflexivity|]. split.
  { intros Hnone. unfold newSampleModal. cbn [Plugin.filePath].
    now rewrite Hnone. }
  split; [reflexivity|].
  intros vs v. unfold modalOnClick.
  destruct (typing_keeps (vs ++ [v])
              (newSampleModal localStorage (f :: fl) (settings this))
              localStorage) as (-> & -> & _).
  now rewrite typing_snoc.
Qed.

Lemma prompting_path_uploads_field_content_witness :
  ∃ m, snd (onEditorEvent (mkMyPlugin Cases.prompting_settings) ∅
              (Samples.paste (Some [Samples.c_txt]))) = OpenModal m
       ∧ modalOnClick (fst (Lifecycle.typing ([] ++ ["pics"]) m ∅)) Samples.online
         = uploadToGitee [Samples.c_txt] Cases.prompting_settings "pics"
             Samples.online.
Proof.
  destruct (prompting_path_uploads_field_content
              (mkMyPlugin Cases.prompting_settings) ∅
              (Samples.paste (Some [Samples.c_txt])) Samples.c_txt []
              Samples.online eq_refl) as (m & Hm & _ & _ & _ & Htyped).
  - vm_compute. reflexivity.
  - exists m. split; [exact Hm | apply Htyped].
Defined.



(* ===================================================================== *)
(** * Further properties: start-up and the setting tab *)
(* ===================================================================== *)

Section TabFacts.
Import Settings SettingTab.

Lemma handle_onChange (c : control) (s : gmap string value) (st : store) :
  ∃ k v, handle c s st = onChange k v s st.
Proof. destruct c; simpl; eauto. Qed.

Lemma handle_in_sync (c : control) (s : gmap string value) (st : store) :
  complete s →
  complete (fst (handle c s st))
  ∧ snd (handle c s st) = Some (fst (handle c s st))
  ∧ loadSettings (snd (handle c s st)) = fst (handle c s st).
Proof.
  intros Hs. destruct (handle_onChange c s st) as (k & v & ->).
  assert (Hc : complete (fst (onChange k v s st)))
    by now apply onChange_complete.
  split; [exact Hc|]. split; [reflexivity|]. now apply assign_complete.
Qed.

Lemma handle_typed (c : control) (s : gmap string value) (st : store) :
  typed s → typed (fst (handle c s st)).
Proof.
  intros (Hr & Hb & Hp & Ht & Hs).
  destruct c; unfold typed; simpl;
    repeat split;
    first [ rewrite lookup_insert_eq; eauto
          | rewrite lookup_insert_ne by discriminate; assumption ].
Qed.

Lemma session_snoc (cs : list control) (c : control)
    (s : gmap string value) (st : store) :
  session (cs ++ [c]) s st
  = handle c (fst (session cs s st)) (snd (session cs s st)).
Proof. unfold session. now rewrite fold_left_app. Qed.

Lemma DEFAULT_SETTINGS_typed : typed DEFAULT_SETTINGS.
Proof. unfold typed. repeat split; eexists; vm_compute; reflexivity. Qed.

(** What [uploadToGitee] reads of the settings. *)
Lemma uploadToGitee_reads (s1 s2 : gmap string value)
    (fileList : list File) (filePath : string) (w : World) :
  s1 !! "repo" = s2 !! "repo" → s1 !! "path" = s2 !! "path" →
  s1 !! "token" = s2 !! "token" →
  uploadToGitee fileList s1 filePath w = uploadToGitee fileList s2 filePath w.
Proof.
  intros Hr Hp Ht. unfold uploadToGitee. f_equal. apply imap_ext.
  intros i file _. unfold uploadFile, requestUrl, requestData.
  now rewrite Hr, Hp, Ht.
Qed.

End TabFacts.

(** The setting tab keeps memory and store in sync.  Starting from the
    configuration loaded at start-up, after any series of changes in the
    setting tab the configuration in memory has the five properties and is
    the one a reload would give; once a change was made it is what the store
    holds.  The types of the properties are kept, and the defaults have
    them. *)
Theorem setting_tab_keeps_store_in_sync (cs : list SettingTab.control)
    (st : Settings.store) :
  let r := SettingTab.session cs (Settings.loadSettings st) st in
  Settings.complete (fst r)
  ∧ Settings.loadSettings (snd r) = fst r
  ∧ (cs ≠ [] → snd r = Some (fst r))
  ∧ (SettingTab.typed (Settings.loadSettings st) → SettingTab.typed (fst r))
  ∧ SettingTab.typed (Settings.loadSettings None).
Proof.
  induction cs as [|c cs IH] using rev_ind.
  - simpl. split; [apply loadSettings_complete|]. split; [reflexivity|].
    split; [congruence|]. split; [tauto | apply DEFAULT_SETTINGS_typed].
  - cbv zeta in *. rewrite session_snoc.
    destruct IH as (Hc & _ & _ & Ht & Hd).
    destruct (handle_in_sync c _ (snd (SettingTab.session cs
                (Settings.loadSettings st) st)) Hc) as (Hc' & Hst & Hload).
    split; [exact Hc'|]. split; [exact Hload|]. split; [now intros _|].
    split; [|exact Hd]. intros Hty. apply handle_typed. now apply Ht.
Qed.

Lemma setting_tab_keeps_store_in_sync_witness :
  snd (SettingTab.session
         [SettingTab.RepoText "o/r"; SettingTab.SubPathToggle false]
         (Settings.loadSettings None) None)
  = Some (fst (SettingTab.session
                 [SettingTab.RepoText "o/r"; SettingTab.SubPathToggle false]
                 (Settings.loadSettings None) None))
  ∧ SettingTab.typed
      (fst (SettingTab.session
              [SettingTab.RepoText "o/r"; SettingTab.SubPathToggle false]
              (Settings.loadSettings None) None)).
Proof.
  destruct (setting_tab_keeps_store_in_sync
              [SettingTab.RepoText "o/r"; SettingTab.SubPathToggle false] None)
    as (_ & _ & Hst & Hty & Hd).
  split; [apply Hst; discriminate | apply Hty, Hd].
Defined.

(** A change in the setting tab reaches the next upload.  A new base path,
    repository or token is the one of the next request; a new branch, or a
    new state of the toggle, changes nothing in the next batch. *)
Theorem tab_change_reaches_next_upload (s : gmap string value)
    (st : Settings.store) (fileList : list File) (filePath : string)
    (w : World) (file : File) (result v : string) (b : bool) :
  requestUrl (fst (SettingTab.handle (SettingTab.PathText v) s st)) filePath file
  = "https://gitee.com/api/v5/repos/" +:+ template (s !! "repo")
    +:+ "/contents/" +:+ v +:+ "/" +:+ filePath +:+ "/" +:+ name file
  ∧ requestUrl (fst (SettingTab.handle (SettingTab.RepoText v) s st))
      filePath file
    = "https://gitee.com/api/v5/repos/" +:+ v
      +:+ "/contents/" +:+ template (s !! "path")
      +:+ "/" +:+ filePath +:+ "/" +:+ name file
  ∧ access_token (requestData
                    (fst (SettingTab.handle (SettingTab.TokenText v) s st))
                    file result)
    = Some (VStr v)
  ∧ uploadToGitee fileList
      (fst (SettingTab.handle (SettingTab.BranchText v) s st)) filePath w
    = uploadToGitee fileList s filePath w
  ∧ uploadToGitee fileList
      (fst (SettingTab.handle (SettingTab.SubPathToggle b) s st)) filePath w
    = uploadToGitee fileList s filePath w.
Proof.
  unfold requestUrl, requestData. simpl.
  rewrite !lookup_insert_eq. rewrite !lookup_insert_ne by discriminate.
  repeat split;
    apply uploadToGitee_reads; now rewrite lookup_insert_ne by discriminate.
Qed.

(** Start-up.  The plugin loads its settings before it handles events: on
    the first run, or when the stored data has no [subPathable], an event
    with files opens the modal; when the stored data holds a boolean for
    [subPathable] the event is dispatched by it. *)
Theorem startup_dispatch (st : Settings.store)
    (localStorage : gmap string string) (event : Event)
    (f : File) (fl : list File) :
  files event = Some (f :: fl) →
  let this := Lifecycle.onload st in
  let modal := OpenModal (newSampleModal localStorage (f :: fl) (settings this)) in
  (st = None → snd (onEditorEvent this localStorage event) = modal)
  ∧ (∀ data, st = Some data → data !! "subPathable" = None →
             snd (onEditorEvent this localStorage event) = modal)
  ∧ (∀ data b, st = Some data → data !! "subPathable" = Some (VBool b) →
               snd (onEditorEvent this localStorage event)
               = if b then modal else Upload (f :: fl) (settings this) "").
Proof.
  intros Hfiles this modal.
  assert (Hdefault : Settings.DEFAULT_SETTINGS !! "subPathable"
                     = Some (VBool true)) by (vm_compute; reflexivity).
  unfold onEditorEvent, uploadFiles. rewrite Hfiles.
  subst this modal. unfold Lifecycle.onload. cbn [settings].
  split; [|split].
  - intros ->. unfold Settings.loadSettings, Settings.loadData, Settings.assign.
    now rewrite Hdefault.
  - intros data -> Hnone.
    unfold Settings.loadSettings, Settings.loadData, Settings.assign.
    rewrite lookup_union_r by exact Hnone. now rewrite Hdefault.
  - intros data b -> Hsome.
    unfold Settings.loadSettings, Settings.loadData, Settings.assign.
    rewrite (lookup_union_Some_l _ _ _ _ Hsome). now destruct b.
Qed.

Lemma startup_dispatch_witness :
  snd (onEditorEvent (Lifecycle.onload (Some Samples.direct_settings)) ∅
         (Samples.paste (Some [Samples.c_txt])))
  = Upload [Samples.c_txt]
      (settings (Lifecycle.onload (Some Samples.direct_settings))) "".
Proof.
  apply (proj2 (proj2 (startup_dispatch (Some Samples.direct_settings) ∅
                         (Samples.paste (Some [Samples.c_txt]))
                         Samples.c_txt [] eq_refl))
           Samples.direct_settings false eq_refl).
  vm_compute. reflexivity.
Defined.

Lemma error_response_is_soft_witness :
  uploadFile Samples.direct_settings "" Samples.quota 0 Samples.a_png
  = ([AxiosPost (requestUrl Samples.direct_settings "" Samples.a_png)
        (requestData Samples.direct_settings Samples.a_png
           "data:image/png;base64,QUJD");
      NewNotice ("上传文件" +:+ name Samples.a_png +:+ "失败，失败原因："
                 +:+ "quota exceeded") 5000], Resolved "").
Proof.
  exact (proj1 (error_response_is_soft Samples.direct_settings ""
                  Samples.quota 0 Samples.a_png
                  "data:image/png;base64,QUJD" "quota exceeded"
                  eq_refl eq_refl)).
Defined.

(** The promise of a batch is never rejected, whatever the files, the
    environment and the order of completion: the callers' [.then] without
    [.catch] misses no error. *)
Theorem batch_never_rejected (fileList : list File)
    (settings : gmap string value) (filePath : string) (w : World)
    (order : list nat) :
  all (promises (uploadToGitee fileList settings filePath w)) order ≠ Rejected
  ∧ ∀ i, promises (uploadToGitee fileList settings filePath w) !! i
         ≠ Some Rejected.
Proof.
  split; [apply all_not_rejected|]; apply promises_not_rejected.
Qed.
